(** * Sync pipeline of the Multi-Org Integration Platform

    A shallow embedding of the two backend services that carry the pipeline,
    [backend/services/integrationService.js] and
    [backend/services/aiService.js], and the properties of the pipeline
    checked against it.

    Modelling conventions.
    - JavaScript values are the inductive [value]; a number is an element of
      an abstract carrier [num] whose arithmetic, printing and parsing are the
      fields of the class [Host].  The embedded code calls these fields where
      the source calls the engine; every general theorem holds for every host,
      IEEE-754 doubles included.
    - A string is a [string] read as a sequence of code units below 256.
    - A plain object is the ordered list of its own properties ([jsobject]):
      [Object.keys] order is insertion order.  Property names inherited from
      [Object.prototype] and array-index names are outside the model: a
      theorem that writes a property excludes the key [__proto__], which an
      assignment hands to the inherited setter, and a theorem that looks a
      rule up under arbitrary names excludes the inherited names
      ([objectPrototypeNames]), by hypothesis.
    - A [throw] is the [Throw] case of [completion]; [try]/[catch] is a match.
    - The simulated collaborators of the source (the random conflict roll of
      [detectConflicts], the random failure of [syncToTarget], the generated
      source data) are inputs: each source item carries the answers the
      collaborators give while it is processed.  Delays, logging and the
      wall-clock fields ([processingTime], [timestamp]) are left out. *)

From Stdlib Require Import String Ascii List ZArith QArith Qround Qabs Bool Arith Lia DecimalString.
Import ListNotations.
Local Open Scope list_scope.
Local Open Scope string_scope.
Local Open Scope nat_scope.

(** ** The host: JavaScript numbers and dates *)

Class Host : Type := {
  num : Type;
  (** the number denoted by a numeric literal, or an exact small integer *)
  num_lit : Q -> num;
  num_NaN : num;
  num_isNaN : num -> bool;
  (** [ToBoolean] on numbers: false on zero and NaN *)
  num_truthy : num -> bool;
  num_add : num -> num -> num;
  num_sub : num -> num -> num;
  num_mul : num -> num -> num;
  num_div : num -> num -> num;
  (** [Math.max] of two numbers and [Math.round] *)
  num_max : num -> num -> num;
  num_round : num -> num;
  (** [x > y] on numbers, false when either is NaN *)
  num_gt : num -> num -> bool;
  (** [Number.prototype.toString] and [Number.prototype.toFixed(2)] *)
  num_toString : num -> string;
  num_toFixed2 : num -> string;
  (** [ToNumber] on strings and the global [parseFloat] on strings *)
  StringToNumber : string -> num;
  parseFloat_string : string -> num;
  (** [Date.parse], [TimeClip], [Date.prototype.toISOString] ([None] is the
      RangeError of an invalid time value) and [Date.prototype.toString] *)
  Date_parse : string -> num;
  TimeClip : num -> num;
  Date_toISOString : num -> option string;
  Date_toString : num -> string;
  (** a comparison with NaN on the left is false *)
  num_gt_NaN_l : forall x, num_gt num_NaN x = false
}.

(** ** Strings as lists of code units *)

Module Str.

Definition code (c : ascii) : nat := nat_of_ascii c.

(** [\d] *)
Definition isDigit (c : ascii) : bool := (48 <=? code c) && (code c <=? 57).

(** [\s], and the characters [trim] strips *)
Definition isWhiteSpace (c : ascii) : bool :=
  let n := code c in ((9 <=? n) && (n <=? 13)) || (n =? 32) || (n =? 160).

Definition lowerChar (c : ascii) : ascii :=
  let n := code c in
  if ((65 <=? n) && (n <=? 90))
     || ((192 <=? n) && (n <=? 222) && negb (n =? 215))
  then ascii_of_nat (n + 32) else c.

Definition chars (s : string) : list ascii := list_ascii_of_string s.
Definition ofChars (l : list ascii) : string := string_of_list_ascii l.

(** [s.toLowerCase()] on code units below 256: each is mapped to one code unit *)
Definition toLowerCase (s : string) : string := ofChars (map lowerChar (chars s)).

Fixpoint dropWhile (p : ascii -> bool) (l : list ascii) : list ascii :=
  match l with
  | [] => []
  | c :: r => if p c then dropWhile p r else l
  end.

Definition trim (s : string) : string :=
  ofChars (rev (dropWhile isWhiteSpace (rev (dropWhile isWhiteSpace (chars s))))).

(** [s.replace(/\D/g, '')] *)
Definition stripNonDigits (s : string) : string := ofChars (filter isDigit (chars s)).

(** [s.replace(/\s+/g, ' ')]; [inRun] tells that the previous character was
    white space, already replaced *)
Fixpoint collapseRuns (inRun : bool) (l : list ascii) : list ascii :=
  match l with
  | [] => []
  | c :: r =>
      if isWhiteSpace c
      then (if inRun then collapseRuns true r else " "%char :: collapseRuns true r)
      else c :: collapseRuns false r
  end.

Definition collapseWhiteSpace (s : string) : string := ofChars (collapseRuns false (chars s)).

Fixpoint isPrefix (p l : list ascii) : bool :=
  match p, l with
  | [], _ => true
  | _ :: _, [] => false
  | a :: p', b :: l' => Ascii.eqb a b && isPrefix p' l'
  end.

Fixpoint includesChars (l p : list ascii) : bool :=
  isPrefix p l || match l with [] => false | _ :: r => includesChars r p end.

(** [s.includes(p)] *)
Definition includes (s p : string) : bool := includesChars (chars s) (chars p).

(** [s.slice(i, j)] and [s.slice(i)] for indices within the string *)
Definition slice (s : string) (i j : nat) : string := substring i (j - i) s.
Definition sliceFrom (s : string) (i : nat) : string := substring i (String.length s - i) s.

(** [s[0] === c] *)
Definition firstIs (s : string) (c : ascii) : bool :=
  match String.get 0 s with
  | Some x => Ascii.eqb x c
  | None => false
  end.

(** [s.split(sep)[0]] for a one-character separator *)
Fixpoint beforeChar (sep : ascii) (l : list ascii) : list ascii :=
  match l with
  | [] => []
  | c :: r => if Ascii.eqb c sep then [] else c :: beforeChar sep r
  end.

Definition firstSplit (sep : ascii) (s : string) : string := ofChars (beforeChar sep (chars s)).

(** [a < b] on strings: code units compared left to right *)
Fixpoint ltChars (a b : list ascii) : bool :=
  match a, b with
  | _, [] => false
  | [], _ :: _ => true
  | x :: a', y :: b' =>
      if code x <? code y then true
      else if code y <? code x then false
      else ltChars a' b'
  end.

Definition lt (a b : string) : bool := ltChars (chars a) (chars b).

(** [s.replace('-', '_')]: a string pattern replaces the first occurrence only *)
Fixpoint replaceFirstChar (old new : ascii) (l : list ascii) : list ascii :=
  match l with
  | [] => []
  | c :: r => if Ascii.eqb c old then new :: r else c :: replaceFirstChar old new r
  end.

Definition replaceFirst (old new : ascii) (s : string) : string :=
  ofChars (replaceFirstChar old new (chars s)).

End Str.

(** ** Values, exceptions, objects *)

Section Values.
Context {H : Host}.

Inductive value : Type :=
| VUndefined
| VNull
| VBool (b : bool)
| VNum (n : num)
| VStr (s : string)
| VDate (t : num)      (* a Date object with time value [t] *)
| VObject.             (* a plain object without members of its own interest *)

(** [v == null] *)
Definition isNullish (v : value) : bool :=
  match v with VUndefined | VNull => true | _ => false end.

(** [ToBoolean] *)
Definition truthy (v : value) : bool :=
  match v with
  | VUndefined | VNull => false
  | VBool b => b
  | VNum n => num_truthy n
  | VStr s => negb (String.eqb s "")
  | VDate _ | VObject => true
  end.

(** [ToString], as a template literal or [RegExp.prototype.test] applies it *)
Definition ToString (v : value) : string :=
  match v with
  | VUndefined => "undefined"
  | VNull => "null"
  | VBool true => "true"
  | VBool false => "false"
  | VNum n => num_toString n
  | VStr s => s
  | VDate t => Date_toString t
  | VObject => "[object Object]"
  end.

Definition num_of_nat (n : nat) : num := num_lit (inject_Z (Z.of_nat n)).

(** [ToPrimitive] with hint number, then [ToNumber] *)
Definition ToNumber (v : value) : num :=
  match v with
  | VUndefined => num_NaN
  | VNull => num_of_nat 0
  | VBool true => num_of_nat 1
  | VBool false => num_of_nat 0
  | VNum n => n
  | VStr s => StringToNumber s
  | VDate t => t
  | VObject => StringToNumber "[object Object]"
  end.

(** Is the primitive of the value (hint number) a string, and which *)
Definition primitiveString (v : value) : option string :=
  match v with
  | VStr s => Some s
  | VObject => Some "[object Object]"
  | _ => None
  end.

(** [a > b] *)
Definition js_gt (a b : value) : bool :=
  match primitiveString a, primitiveString b with
  | Some x, Some y => Str.lt y x
  | _, _ => num_gt (ToNumber a) (ToNumber b)
  end.

(** [a || b] *)
Definition js_or (a b : value) : value := if truthy a then a else b.

(** What a [throw] carries: an Error object or any other value *)
Inductive thrown : Type :=
| ErrorObj (name message : string)
| ThrownValue (v : value).

Definition TypeError (message : string) : thrown := ErrorObj "TypeError" message.

Inductive completion (A : Type) : Type :=
| Normal (a : A)
| Throw (e : thrown).
Arguments Normal {A} a.
Arguments Throw {A} e.

Definition bind {A B : Type} (c : completion A) (k : A -> completion B) : completion B :=
  match c with
  | Normal a => k a
  | Throw e => Throw e
  end.

(** [error.message] in a catch clause *)
Definition errorMessage (e : thrown) : completion value :=
  match e with
  | ErrorObj _ m => Normal (VStr m)
  | ThrownValue VUndefined => Throw (TypeError "Cannot read properties of undefined (reading 'message')")
  | ThrownValue VNull => Throw (TypeError "Cannot read properties of null (reading 'message')")
  | ThrownValue _ => Normal VUndefined
  end.

(** A plain object: its own properties in insertion order *)
Definition jsobject : Type := list (string * value).

Fixpoint obj_get (o : jsobject) (k : string) : value :=
  match o with
  | [] => VUndefined
  | (k', v) :: r => if String.eqb k' k then v else obj_get r k
  end.

(** [o[k] = v] for a key other than [__proto__]: an existing property keeps
    its place, a new one is appended *)
Fixpoint obj_set (o : jsobject) (k : string) (v : value) : jsobject :=
  match o with
  | [] => [(k, v)]
  | (k', v') :: r => if String.eqb k' k then (k', v) :: r else (k', v') :: obj_set r k v
  end.

Definition obj_keys (o : jsobject) : list string := map fst o.

End Values.

Arguments Normal {H A} a.
Arguments Throw {H A} e.

Notation "x <- c ;; k" := (bind c (fun x => k))
  (at level 61, c at next level, right associativity).

(** ** aiService.js *)

Module AIService.
Section WithHost.
Context {H : Host}.

(** *** Similarity scorer *)

(** One row of the matrix of [calculateLevenshteinDistance]: [c2] is
    [str2.charAt(i - 1)], [above] is row [i - 1] from column [j - 1] on,
    [left] is [matrix[i][j - 1]] *)
Fixpoint fillRow (c2 : ascii) (str1 : list ascii) (above : list nat) (left : nat) : list nat :=
  match str1, above with
  | c1 :: str1', diag :: ((up :: _) as above') =>
      let cell :=
        if Ascii.eqb c2 c1 then diag
        else Nat.min (diag + 1) (Nat.min (left + 1) (up + 1)) in
      cell :: fillRow c2 str1' above' cell
  | _, _ => []
  end.

(** Rows [i], [i + 1], ... of the matrix, one per character of [str2] *)
Fixpoint fillMatrix (str2 str1 : list ascii) (i : nat) (above : list nat) : list (list nat) :=
  match str2 with
  | [] => []
  | c2 :: str2' =>
      let row := i :: fillRow c2 str1 above i in
      row :: fillMatrix str2' str1 (S i) row
  end.

Definition levenshteinMatrix (str1 str2 : list ascii) : list (list nat) :=
  let row0 := seq 0 (S (length str1)) in
  row0 :: fillMatrix str2 str1 1 row0.

Definition calculateLevenshteinDistance (str1 str2 : string) : nat :=
  let s1 := Str.chars str1 in
  let s2 := Str.chars str2 in
  nth (length s1) (nth (length s2) (levenshteinMatrix s1 s2) []) 0.

(** [Math.round(x * 100) / 100] *)
Definition round2 (x : num) : num :=
  num_div (num_round (num_mul x (num_lit 100))) (num_lit 100).

Definition inMatches (matches : list string) (field : string) : bool :=
  existsb (fun m => String.eqb (Str.toLowerCase m) (Str.toLowerCase field)) matches.

Definition calculateFieldSimilarity (sourceField targetField : string)
    (sourcePossibleMatches targetPossibleMatches : list string) : num :=
  let confidence :=
    if String.eqb (Str.toLowerCase sourceField) (Str.toLowerCase targetField)
    then num_lit 1
    else if inMatches sourcePossibleMatches targetField
    then num_lit 0.95
    else if inMatches targetPossibleMatches sourceField
    then num_lit 0.95
    else if Str.includes (Str.toLowerCase sourceField) (Str.toLowerCase targetField)
            || Str.includes (Str.toLowerCase targetField) (Str.toLowerCase sourceField)
    then num_lit 0.8
    else
      let distance :=
        calculateLevenshteinDistance (Str.toLowerCase sourceField) (Str.toLowerCase targetField) in
      let maxLength := Nat.max (String.length sourceField) (String.length targetField) in
      num_max (num_lit 0)
        (num_sub (num_lit 1) (num_div (num_of_nat distance) (num_of_nat maxLength)))
  in
  round2 confidence.

(** *** Conflict resolution rules *)

(** A rule of the table; a call with two arguments leaves the two time
    parameters [undefined] *)
Definition rule : Type := value -> value -> value -> value -> value.

Definition String_merge : rule := fun source target _ _ =>
  if truthy source && truthy target
  then VStr (ToString source ++ " | " ++ ToString target)
  else js_or source target.

Definition Number_merge : rule := fun source target _ _ =>
  VNum (num_max (ToNumber (js_or source (VNum (num_lit 0))))
                (ToNumber (js_or target (VNum (num_lit 0))))).

Definition Date_merge : rule := fun source target _ _ =>
  if js_gt source target then source else target.

Definition Boolean_merge : rule := fun source target _ _ => js_or source target.

Definition source_wins : rule := fun source target _ _ => source.
Definition target_wins : rule := fun source target _ _ => target.
Definition latest_wins : rule := fun source target sourceTime targetTime =>
  if js_gt sourceTime targetTime then source else target.

(** [dataTypes[dataType]?.[key]]: the rule of a data type under a key, for a
    data type and a key that are own properties or absent (no name that
    [Object.prototype] hands down) *)
Definition dataTypeRule (dataType key : string) : option rule :=
  let merge :=
    if String.eqb dataType "String" then Some String_merge
    else if String.eqb dataType "Number" then Some Number_merge
    else if String.eqb dataType "Date" then Some Date_merge
    else if String.eqb dataType "Boolean" then Some Boolean_merge
    else None in
  match merge with
  | None => None
  | Some m =>
      if String.eqb key "merge" then Some m
      else if String.eqb key "source_wins" then Some source_wins
      else if String.eqb key "target_wins" then Some target_wins
      else if String.eqb key "latest_wins" then Some latest_wins
      else None
  end.

Definition fieldPriority (field : string) : option string :=
  if String.eqb field "Email" then Some "high"
  else if String.eqb field "Phone" then Some "high"
  else if String.eqb field "Name" then Some "high"
  else if String.eqb field "Amount" then Some "high"
  else if String.eqb field "CloseDate" then Some "high"
  else if String.eqb field "Description" then Some "medium"
  else if String.eqb field "Notes" then Some "low"
  else None.

(** *** Conflict resolver *)

Record Conflict : Type := {
  field : string;
  sourceValue : value;
  targetValue : value;
  (** [None]: the property is absent *)
  dataType : option string;
  conflictType : string
}.

Record Resolution : Type := {
  res_field : string;
  res_sourceValue : value;
  res_targetValue : value;
  resolvedValue : value;
  res_strategy : string;
  confidence : num;
  reasoning : string;
  resolved : bool;
  res_error : option value
}.

Record ResolutionBatch : Type := {
  strategy : string;
  totalConflicts : nat;
  resolvedConflicts : nat;
  resolutions : list Resolution;
  overallConfidence : num
}.

(** [/^[^\s@]+@[^\s@]+\.[^\s@]+$/]: a non-empty local part, one [@], and
    after it a dot with at least one character on each side, no white space
    and no second [@] anywhere *)
Definition emailChar (c : ascii) : bool :=
  negb (Str.isWhiteSpace c) && negb (Ascii.eqb c "@").

Fixpoint hasInnerDot (l : list ascii) : bool :=
  match l with
  | [] => false
  | c :: r => (Ascii.eqb c "." && negb (Nat.eqb (length r) 0)) || hasInnerDot r
  end.

Definition emailDomain (d : list ascii) : bool :=
  forallb emailChar d && match d with [] => false | _ :: r => hasInnerDot r end.

Fixpoint emailFrom (seenLocal : bool) (l : list ascii) : bool :=
  match l with
  | [] => false
  | c :: r =>
      if Ascii.eqb c "@" then seenLocal && emailDomain r
      else if Str.isWhiteSpace c then false
      else emailFrom true r
  end.

Definition emailRegex_test (s : string) : bool := emailFrom false (Str.chars s).

Definition validateEmail (email : value) : bool :=
  if negb (truthy email) then false else emailRegex_test (ToString email).

(** [v.length] *)
Definition lengthOf (v : value) : completion (option nat) :=
  match v with
  | VUndefined => Throw (TypeError "Cannot read properties of undefined (reading 'length')")
  | VNull => Throw (TypeError "Cannot read properties of null (reading 'length')")
  | VStr s => Normal (Some (String.length s))
  | _ => Normal None
  end.

(** [a >= b] on two lengths, either of which may be [undefined] *)
Definition lengthGe (a b : option nat) : bool :=
  match a, b with
  | Some x, Some y => y <=? x
  | _, _ => false
  end.

(** [v.replace(/\D/g, '').length] *)
Definition digitCount (v : value) : completion nat :=
  match v with
  | VStr s => Normal (String.length (Str.stripNonDigits s))
  | _ => Throw (TypeError "(intermediate value).replace is not a function")
  end.

Definition resolveHighPriorityField (field : string) (sourceValue targetValue : value)
    (dataType : string) : completion value :=
  let emailCase : option (completion value) :=
    if Str.includes field "Email" then
      let sourceValid := validateEmail sourceValue in
      let targetValid := validateEmail targetValue in
      if sourceValid && negb targetValid then Some (Normal sourceValue)
      else if negb sourceValid && targetValid then Some (Normal targetValue)
      else if sourceValid && targetValid then
        Some (ls <- lengthOf sourceValue ;;
              lt <- lengthOf targetValue ;;
              Normal (if lengthGe ls lt then sourceValue else targetValue))
      else None
    else None in
  match emailCase with
  | Some c => c
  | None =>
      if Str.includes field "Phone" then
        sourceDigits <- digitCount (js_or sourceValue (VStr "")) ;;
        targetDigits <- digitCount (js_or targetValue (VStr "")) ;;
        Normal (if targetDigits <=? sourceDigits then sourceValue else targetValue)
      else if Str.includes field "Name" then
        ls <- lengthOf (js_or sourceValue (VStr "")) ;;
        lt <- lengthOf (js_or targetValue (VStr "")) ;;
        Normal (if lengthGe ls lt then sourceValue else targetValue)
      else Normal sourceValue
  end.

(** The [try] block of [resolveIndividualConflict]: resolved value,
    confidence and reasoning *)
Definition resolveAttempt (c : Conflict) (dataType strategy : string)
  : completion (value * num * string) :=
  if String.eqb strategy "ai-resolve" then
    let priority := match fieldPriority (field c) with Some p => p | None => "medium" end in
    if String.eqb priority "high" then
      resolvedValue <- resolveHighPriorityField (field c) (sourceValue c) (targetValue c) dataType ;;
      Normal (resolvedValue, num_lit 0.9,
              "AI resolved high-priority field using advanced conflict resolution")
    else
      let resolutionMethod :=
        match dataTypeRule dataType "merge" with
        | Some m => m
        | None => String_merge
        end in
      Normal (resolutionMethod (sourceValue c) (targetValue c) VUndefined VUndefined,
              num_lit 0.8, "AI resolved using data type-specific merge strategy")
  else
    let key := Str.replaceFirst "-" "_" strategy in
    let resolutionMethod :=
      match dataTypeRule dataType key with
      | Some m => Some m
      | None => dataTypeRule "String" key
      end in
    match resolutionMethod with
    | Some m =>
        Normal (m (sourceValue c) (targetValue c) VUndefined VUndefined,
                num_lit 0.7, "Resolved using " ++ strategy ++ " strategy")
    | None => Throw (TypeError "resolutionMethod is not a function")
    end.

Definition resolveIndividualConflict (c : Conflict) (strategy : string) : Resolution :=
  let dataType := match dataType c with Some d => d | None => "String" end in
  match resolveAttempt c dataType strategy with
  | Normal (resolvedValue, confidence, reasoning) =>
      {| res_field := field c;
         res_sourceValue := sourceValue c;
         res_targetValue := targetValue c;
         resolvedValue := resolvedValue;
         res_strategy := strategy;
         confidence := confidence;
         reasoning := reasoning;
         resolved := true;
         res_error := None |}
  | Throw error =>
      let message := match errorMessage error with Normal m => m | Throw _ => VUndefined end in
      {| res_field := field c;
         res_sourceValue := sourceValue c;
         res_targetValue := targetValue c;
         resolvedValue := sourceValue c;
         res_strategy := "fallback";
         confidence := num_lit 0.5;
         reasoning := "Fallback resolution due to error: " ++ ToString message;
         resolved := false;
         res_error := Some message |}
  end.

Definition calculateOverallConfidence (resolutions : list Resolution) : num :=
  if Nat.eqb (length resolutions) 0 then num_lit 0
  else
    let totalConfidence :=
      fold_left (fun sum resolution => num_add sum (confidence resolution)) resolutions (num_lit 0) in
    round2 (num_div totalConfidence (num_of_nat (length resolutions))).

(** [resolutionStrategy = 'ai-resolve'] is the default of an absent argument *)
Definition resolveConflicts (conflicts : list Conflict) (resolutionStrategy : option string)
  : ResolutionBatch :=
  let resolutionStrategy :=
    match resolutionStrategy with Some s => s | None => "ai-resolve" end in
  let resolutions := map (fun conflict => resolveIndividualConflict conflict resolutionStrategy) conflicts in
  {| strategy := resolutionStrategy;
     totalConflicts := length conflicts;
     resolvedConflicts := length (filter resolved resolutions);
     resolutions := resolutions;
     overallConfidence := calculateOverallConfidence resolutions |}.

(** *** Mapping generator: the transformation rule of a pair of fields *)


End WithHost.
End AIService.

(** ** integrationService.js *)

Module IntegrationService.
Import AIService.
Section WithHost.
Context {H : Host}.

(** *** Transformer *)

Definition formatPhone (phone : value) : completion value :=
  if negb (truthy phone) then Normal phone
  else
    match phone with
    | VStr s =>
        let cleaned := Str.stripNonDigits s in
        if String.length cleaned =? 10 then
          Normal (VStr ("(" ++ Str.slice cleaned 0 3 ++ ") " ++ Str.slice cleaned 3 6
                        ++ "-" ++ Str.sliceFrom cleaned 6))
        else if (String.length cleaned =? 11) && Str.firstIs cleaned "1" then
          Normal (VStr ("+1 (" ++ Str.slice cleaned 1 4 ++ ") " ++ Str.slice cleaned 4 7
                        ++ "-" ++ Str.sliceFrom cleaned 7))
        else Normal phone
    | _ => Throw (TypeError "phone.replace is not a function")
    end.

Definition normalizeEmail (email : value) : completion value :=
  if negb (truthy email) then Normal email
  else
    match email with
    | VStr s => Normal (VStr (Str.trim (Str.toLowerCase s)))
    | _ => Throw (TypeError "email.toLowerCase is not a function")
    end.

(** [new Date(v)]: the time value of the new Date object *)
Definition newDate (v : value) : num :=
  match v with
  | VDate t => t
  | VStr s => Date_parse s
  | VObject => Date_parse "[object Object]"
  | _ => TimeClip (ToNumber v)
  end.

Definition formatDate (dateValue : value) : completion value :=
  if negb (truthy dateValue) then Normal dateValue
  else
    match Date_toISOString (newDate dateValue) with
    | Some iso => Normal (VStr (Str.firstSplit "T" iso))
    | None => Normal dateValue
    end.

Definition formatCurrency (amount : value) : completion value :=
  if negb (truthy amount) then Normal amount
  else
    let numAmount := parseFloat_string (ToString amount) in
    if num_isNaN numAmount then Normal amount
    else Normal (VNum (num_div (num_round (num_mul numAmount (num_lit 100))) (num_lit 100))).

Definition normalizeName (name : value) : completion value :=
  if negb (truthy name) then Normal name
  else
    match name with
    | VStr s => Normal (VStr (Str.collapseWhiteSpace (Str.trim s)))
    | _ => Throw (TypeError "name.trim is not a function")
    end.

Definition directMapping (value0 : value) : completion value := Normal value0.

(** The [switch] of [applyTransformation] *)
Definition transformer (rule : string) : value -> completion value :=
  if String.eqb rule "formatPhone(value)" then formatPhone
  else if String.eqb rule "normalizeEmail(value)" then normalizeEmail
  else if String.eqb rule "formatDate(value)" then formatDate
  else if String.eqb rule "formatCurrency(value)" then formatCurrency
  else if String.eqb rule "normalizeName(value)" then normalizeName
  else directMapping.

Definition applyTransformation (value0 : value) (rule : string) : value :=
  if negb (truthy value0) then value0
  else
    match transformer rule value0 with
    | Normal v => v
    | Throw _ => value0
    end.

(** *** Field mapper *)

Record FieldMapping : Type := {
  sourceField : string;
  targetField : string;
  (** [None]: no rule is set *)
  transformationRule : option string
}.

(** [sourceRecord[key]] where the record may be [null]: the entry of the
    source array is [None] then *)
Definition recordGet (sourceRecord : option jsobject) (key : string) : completion value :=
  match sourceRecord with
  | Some o => Normal (obj_get o key)
  | None => Throw (TypeError ("Cannot read properties of null (reading '" ++ key ++ "')"))
  end.

(** One turn of the loop of [applyFieldMappings].  The [catch] clause reads
    the source field again, so what the [try] block throws on a [null]
    record is thrown again *)
Definition applyMapping (sourceRecord : option jsobject) (mappedRecord : jsobject)
    (mapping : FieldMapping) : completion jsobject :=
  let attempt :=
    sourceValue <- recordGet sourceRecord (sourceField mapping) ;;
    let ruleSet :=
      match transformationRule mapping with
      | Some r => negb (String.eqb r "")
      | None => false
      end in
    let sourceValue :=
      if ruleSet && negb (isNullish sourceValue)
      then applyTransformation sourceValue
             (match transformationRule mapping with Some r => r | None => "" end)
      else sourceValue in
    Normal (obj_set mappedRecord (targetField mapping) sourceValue) in
  match attempt with
  | Normal o => Normal o
  | Throw _ =>
      original <- recordGet sourceRecord (sourceField mapping) ;;
      Normal (obj_set mappedRecord (targetField mapping) original)
  end.

Fixpoint applyMappingsFrom (sourceRecord : option jsobject) (mappedRecord : jsobject)
    (fieldMappings : list FieldMapping) : completion jsobject :=
  match fieldMappings with
  | [] => Normal mappedRecord
  | mapping :: rest =>
      mappedRecord' <- applyMapping sourceRecord mappedRecord mapping ;;
      applyMappingsFrom sourceRecord mappedRecord' rest
  end.

Definition applyFieldMappings (sourceRecord : option jsobject)
    (fieldMappings : list FieldMapping) : completion jsobject :=
  applyMappingsFrom sourceRecord [] fieldMappings.

(** *** Conflict detection and application *)

Definition getFieldDataType (fieldName : string) : string :=
  let fieldName_lower := Str.toLowerCase fieldName in
  if Str.includes fieldName_lower "email" then "String"
  else if Str.includes fieldName_lower "phone" then "String"
  else if Str.includes fieldName_lower "date" then "Date"
  else if Str.includes fieldName_lower "amount" || Str.includes fieldName_lower "revenue" then "Number"
  else if Str.includes fieldName_lower "active" || Str.includes fieldName_lower "flag" then "Boolean"
  else "String".

(** [roll] is [Math.random() < 0.15] *)
Definition detectConflicts (mappedRecord : jsobject) (roll : bool) : list Conflict :=
  if roll then
    let conflictFields := firstn 2 (obj_keys mappedRecord) in
    flat_map
      (fun field =>
         if truthy (obj_get mappedRecord field) then
           [ {| field := field;
                sourceValue := obj_get mappedRecord field;
                targetValue := VStr ("existing_" ++ ToString (obj_get mappedRecord field));
                dataType := Some (getFieldDataType field);
                conflictType := "DATA_CONFLICT" |} ]
         else [])
      conflictFields
  else [].

Definition applyConflictResolution (mappedRecord : jsobject) (resolution : ResolutionBatch)
  : jsobject :=
  fold_left
    (fun mappedRecord fieldResolution =>
       if resolved fieldResolution
       then obj_set mappedRecord (res_field fieldResolution) (resolvedValue fieldResolution)
       else mappedRecord)
    (resolutions resolution) mappedRecord.

(** *** Batch sync engine *)

Record SyncSettings : Type := {
  (** [None]: the property is absent *)
  conflictResolution : option string
}.

Record Org : Type := {
  orgName : option string;
  loginUrl : option string
}.

Record Integration : Type := {
  sourceOrg : option Org;
  targetOrg : option Org;
  fieldMappings : list FieldMapping;
  syncSettings : option SyncSettings
}.

(** A source array entry with the answers of the collaborators for it:
    the conflict roll of [detectConflicts] and what [syncToTarget] does *)
Record SourceItem : Type := {
  (** [None]: a [null] entry *)
  record : option jsobject;
  conflictRoll : bool;
  (** [None]: the write succeeds; [Some e]: it rejects with [e] *)
  writeRejection : option thrown
}.

(** Entries of the [errors] array: of a record, and of a whole batch *)
Inductive SyncError : Type :=
| RecordError (recordId error : value)
| BatchError (batch : nat) (error : value) (recordCount : nat).

(** The [results] object of [processBatch] *)
Record BatchCounts : Type := {
  successful : nat;
  failed : nat;
  conflicts : nat;
  errors : list SyncError
}.

Definition syncToTarget (item : SourceItem) : completion unit :=
  match writeRejection item with
  | None => Normal tt
  | Some e => Throw e
  end.

(** The [try] block of the loop of [processBatch], up to [results.successful++]:
    the counts it leaves, also when it throws *)
Definition tryRecord (integration : Integration) (item : SourceItem) (results : BatchCounts)
  : BatchCounts * completion unit :=
  match applyFieldMappings (record item) (fieldMappings integration) with
  | Throw e => (results, Throw e)
  | Normal mapped =>
      let mappedRecord := obj_set mapped "_aiEnhancement" VObject in
      let found := detectConflicts mappedRecord (conflictRoll item) in
      let resolvedStep : BatchCounts * jsobject * completion unit :=
        if 0 <? length found then
          match syncSettings integration with
          | None =>
              (results, mappedRecord,
               Throw (TypeError "Cannot read properties of undefined (reading 'conflictResolution')"))
          | Some settings =>
              let resolution := resolveConflicts found (conflictResolution settings) in
              if 0 <? resolvedConflicts resolution then
                ({| successful := successful results;
                    failed := failed results;
                    conflicts := conflicts results + length found;
                    errors := errors results |},
                 applyConflictResolution mappedRecord resolution, Normal tt)
              else (results, mappedRecord, Normal tt)
          end
        else (results, mappedRecord, Normal tt) in
      match resolvedStep with
      | (results', _, Throw e) => (results', Throw e)
      | (results', _, Normal _) =>
          match syncToTarget item with
          | Throw e => (results', Throw e)
          | Normal _ =>
              ({| successful := successful results' + 1;
                  failed := failed results';
                  conflicts := conflicts results';
                  errors := errors results' |}, Normal tt)
          end
      end
  end.

(** [record.Id] in the [catch] clause *)
Definition recordId_of (item : SourceItem) : completion value := recordGet (record item) "Id".

Fixpoint processRecords (integration : Integration) (batch : list SourceItem)
    (results : BatchCounts) : completion BatchCounts :=
  match batch with
  | [] => Normal results
  | item :: rest =>
      match tryRecord integration item results with
      | (results', Normal _) => processRecords integration rest results'
      | (results', Throw error) =>
          recordId <- recordId_of item ;;
          message <- errorMessage error ;;
          processRecords integration rest
            {| successful := successful results';
               failed := failed results' + 1;
               conflicts := conflicts results';
               errors := (errors results' ++ [RecordError recordId message])%list |}
      end
  end.

Definition processBatch (batch : list SourceItem) (integration : Integration)
  : completion BatchCounts :=
  processRecords integration batch
    {| successful := 0; failed := 0; conflicts := 0; errors := [] |}.

(** [array.slice(i, j)] *)
Definition arraySlice {A : Type} (array : list A) (i j : nat) : list A :=
  firstn (j - i) (skipn i array).

(** The loop of [createBatches] from index [i]; [fuel] bounds the number of
    turns, and the length of the array is enough of it for a positive
    batch size *)
Fixpoint createBatchesFrom {A : Type} (fuel i : nat) (array : list A) (batchSize : nat)
  : list (list A) :=
  match fuel with
  | 0 => []
  | S fuel' =>
      if i <? length array
      then arraySlice array i (i + batchSize) :: createBatchesFrom fuel' (i + batchSize) array batchSize
      else []
  end.

Definition createBatches {A : Type} (array : list A) (batchSize : nat) : list (list A) :=
  createBatchesFrom (length array) 0 array batchSize.

(** The [results] object of [performSync] *)
Record BatchResult : Type := {
  totalRecords : nat;
  processedRecords : nat;
  successfulRecords : nat;
  failedRecords : nat;
  conflictsTotal : nat;
  syncErrors : list SyncError;
  (** set when the run completes *)
  successRate : value
}.

Definition truthyString (s : option string) : bool :=
  match s with
  | Some x => negb (String.eqb x "")
  | None => false
  end.

Definition validateIntegrationConfig (integration : Integration) : completion unit :=
  match sourceOrg integration, targetOrg integration with
  | None, _ =>
      Throw (ErrorObj "Error" "Integration configuration missing required field: sourceOrg")
  | Some _, None =>
      Throw (ErrorObj "Error" "Integration configuration missing required field: targetOrg")
  | Some source, Some target =>
      if negb (truthyString (loginUrl source)) || negb (truthyString (loginUrl target))
      then Throw (ErrorObj "Error" "Source and target org login URLs are required")
      else if length (fieldMappings integration) =? 0
      then Throw (ErrorObj "Error" "At least one field mapping is required")
      else Normal tt
  end.

(** The simulated [authenticate]: it reads [org.name.toLowerCase()] *)
Definition authenticate (org : option Org) : completion unit :=
  match org with
  | Some o =>
      match orgName o with
      | Some _ => Normal tt
      | None => Throw (TypeError "Cannot read properties of undefined (reading 'toLowerCase')")
      end
  | None => Throw (TypeError "Cannot read properties of undefined (reading 'name')")
  end.

(** One turn of the batch loop of [performSync]; [i] counts from 0 *)
Definition accountBatch (integration : Integration) (i : nat) (batch : list SourceItem)
    (results : BatchResult) : completion BatchResult :=
  match processBatch batch integration with
  | Normal batchResult =>
      Normal {| totalRecords := totalRecords results;
                processedRecords := processedRecords results + length batch;
                successfulRecords := successfulRecords results + successful batchResult;
                failedRecords := failedRecords results + failed batchResult;
                conflictsTotal := conflictsTotal results + conflicts batchResult;
                syncErrors := (syncErrors results ++ errors batchResult)%list;
                successRate := successRate results |}
  | Throw batchError =>
      message <- errorMessage batchError ;;
      Normal {| totalRecords := totalRecords results;
                processedRecords := processedRecords results;
                successfulRecords := successfulRecords results;
                failedRecords := failedRecords results + length batch;
                conflictsTotal := conflictsTotal results;
                syncErrors := (syncErrors results ++ [BatchError (i + 1) message (length batch)])%list;
                successRate := successRate results |}
  end.

Fixpoint batchLoop (integration : Integration) (i : nat) (batches : list (list SourceItem))
    (results : BatchResult) : completion BatchResult :=
  match batches with
  | [] => Normal results
  | batch :: rest =>
      results' <- accountBatch integration i batch results ;;
      batchLoop integration (S i) rest results'
  end.

(** [((successfulRecords / totalRecords) * 100).toFixed(2)], or the number 0 *)
Definition computeSuccessRate (successfulRecords totalRecords : nat) : value :=
  if 0 <? totalRecords
  then VStr (num_toFixed2
               (num_mul (num_div (num_of_nat successfulRecords) (num_of_nat totalRecords))
                        (num_lit 100)))
  else VNum (num_lit 0).

(** What the caller of [performSync] gets: the results, or the failure
    object thrown by the outer [catch] with the message of the error *)
Inductive SyncOutcome : Type :=
| Completed (results : BatchResult)
| Failed (error : value)
| FailedInCatch (e : thrown).

(** [sourceData] is what [querySourceData] returns *)
Definition performSync (integration : Integration) (sourceData : list SourceItem) : SyncOutcome :=
  let run : completion BatchResult :=
    _ <- validateIntegrationConfig integration ;;
    _ <- authenticate (sourceOrg integration) ;;
    _ <- authenticate (targetOrg integration) ;;
    let batchSize := 50 in
    let batches := createBatches sourceData batchSize in
    let results :=
      {| totalRecords := length sourceData;
         processedRecords := 0;
         successfulRecords := 0;
         failedRecords := 0;
         conflictsTotal := 0;
         syncErrors := [];
         successRate := VUndefined |} in
    results <- batchLoop integration 0 batches results ;;
    Normal {| totalRecords := totalRecords results;
              processedRecords := processedRecords results;
              successfulRecords := successfulRecords results;
              failedRecords := failedRecords results;
              conflictsTotal := conflictsTotal results;
              syncErrors := syncErrors results;
              successRate := computeSuccessRate (successfulRecords results) (totalRecords results) |} in
  match run with
  | Normal results => Completed results
  | Throw error =>
      match errorMessage error with
      | Normal message => Failed message
      | Throw e => FailedInCatch e
      end
  end.

End WithHost.
End IntegrationService.

Import AIService IntegrationService.
(** ** Vocabulary of the properties *)

Section Vocabulary.
Context {H : Host}.

(** A rule that answers a non-null value on non-null operands *)
Definition keepsNonNull (m : rule) : Prop :=
  forall source target sourceTime targetTime,
    isNullish source = false -> isNullish target = false ->
    isNullish (m source target sourceTime targetTime) = false.

Definition knownDataType (d : option string) : bool :=
  match d with
  | Some s =>
      String.eqb s "String" || String.eqb s "Number"
      || String.eqb s "Date" || String.eqb s "Boolean"
  | None => false
  end.

Definition withDataType (c : Conflict) (d : option string) : Conflict :=
  {| field := field c;
     sourceValue := sourceValue c;
     targetValue := targetValue c;
     dataType := d;
     conflictType := conflictType c |}.

Definition isString (v : value) : bool :=
  match v with VStr _ => true | _ => false end.

(** The value one mapping writes for a record that is an object *)
Definition mappedValue (sourceRecord : jsobject) (mapping : FieldMapping) : value :=
  let sourceValue := obj_get sourceRecord (sourceField mapping) in
  match transformationRule mapping with
  | Some r =>
      if negb (String.eqb r "") && negb (isNullish sourceValue)
      then applyTransformation sourceValue r
      else sourceValue
  | None => sourceValue
  end.

Definition writeMapping (sourceRecord : jsobject) (mappedRecord : jsobject)
    (mapping : FieldMapping) : jsobject :=
  obj_set mappedRecord (targetField mapping) (mappedValue sourceRecord mapping).

(** What a record whose write is rejected with an Error leaves in [errors] *)
Definition recordErrorOf (item : SourceItem) : SyncError :=
  RecordError
    (match record item with Some r => obj_get r "Id" | None => VUndefined end)
    (match writeRejection item with Some (ErrorObj _ m) => VStr m | _ => VUndefined end).

(** The sizes of the batches whose processing throws *)
Definition thrownRecords (integration : Integration) (batches : list (list SourceItem)) : nat :=
  list_sum
    (map (fun batch =>
            match processBatch batch integration with
            | Normal _ => 0
            | Throw _ => length batch
            end) batches).

Definition initialResults (sourceData : list SourceItem) : BatchResult :=
  {| totalRecords := length sourceData;
     processedRecords := 0;
     successfulRecords := 0;
     failedRecords := 0;
     conflictsTotal := 0;
     syncErrors := [];
     successRate := VUndefined |}.

Definition finalResults (results : BatchResult) : BatchResult :=
  {| totalRecords := totalRecords results;
     processedRecords := processedRecords results;
     successfulRecords := successfulRecords results;
     failedRecords := failedRecords results;
     conflictsTotal := conflictsTotal results;
     syncErrors := syncErrors results;
     successRate := computeSuccessRate (successfulRecords results) (totalRecords results) |}.

Definition isBatchError (e : SyncError) : bool :=
  match e with BatchError _ _ _ => true | RecordError _ _ => false end.

(** The edit distance of two strings given last character first: the
    recurrence that the matrix of [calculateLevenshteinDistance] tabulates *)
Fixpoint editDistance (u : list ascii) : list ascii -> nat :=
  fix onColumns (v : list ascii) : nat :=
    match u, v with
    | [], _ => length v
    | _, [] => length u
    | a :: u', b :: v' =>
        if Ascii.eqb a b then editDistance u' v'
        else Nat.min (editDistance u' v' + 1)
                     (Nat.min (onColumns v' + 1) (editDistance u' v + 1))
    end.

(** The entries of a matrix row from one column on: [u] is the part of
    [str2] read so far, [p] the part of [str1] left of the column, both last
    character first, [suffix] the rest of [str1] *)
Fixpoint rowFrom (u p suffix : list ascii) : list nat :=
  editDistance u p ::
  match suffix with
  | [] => []
  | c :: rest => rowFrom u (c :: p) rest
  end.

(** The call resolves by the exact-match, substring or edit-distance branch:
    the names match exactly, or neither alias test succeeds *)
Definition resolvesWithoutAlias (sourceField targetField : string)
    (sourcePossibleMatches targetPossibleMatches : list string) : bool :=
  String.eqb (Str.toLowerCase sourceField) (Str.toLowerCase targetField)
  || (negb (inMatches sourcePossibleMatches targetField)
      && negb (inMatches targetPossibleMatches sourceField)).

(** The characters that [trim] keeps *)
Definition trimChars (l : list ascii) : list ascii :=
  rev (Str.dropWhile Str.isWhiteSpace (rev (Str.dropWhile Str.isWhiteSpace l))).

(** A list of characters without white space at either end *)
Definition trimmed (l : list ascii) : Prop :=
  Str.dropWhile Str.isWhiteSpace l = l
  /\ Str.dropWhile Str.isWhiteSpace (rev l) = rev l.

(** The case labels of the [switch] of [applyTransformation] *)
Definition transformationRules : list string :=
  [ "formatPhone(value)"; "normalizeEmail(value)"; "formatDate(value)";
    "formatCurrency(value)"; "normalizeName(value)"; "directMapping(value)" ].

(** The keys of a rule object of the conflict resolution table *)
Definition ruleKeys : list string :=
  [ "merge"; "source_wins"; "target_wins"; "latest_wins" ].

(** The property names every object inherits, which the model of the rule
    table leaves out *)
Definition objectPrototypeNames : list string :=
  [ "constructor"; "toString"; "toLocaleString"; "valueOf"; "hasOwnProperty";
    "isPrototypeOf"; "propertyIsEnumerable"; "__proto__"; "__defineGetter__";
    "__defineSetter__"; "__lookupGetter__"; "__lookupSetter__" ].

(** A source item as a run meets it: the record is an object
    ([generateMockData] builds object literals), and what the writer rejects
    with, if it does, is not [null] or [undefined] ([syncToTarget] throws
    [new Error] only).  The failure of such an item stays inside the [catch]
    clause of its record *)
Definition wellFormedItem (item : SourceItem) : Prop :=
  record item <> None
  /\ forall v, writeRejection item = Some (ThrownValue v) -> isNullish v = false.

(** The phone formats of [formatPhone], from the digits *)
Definition tenDigitFormat (cleaned : string) : string :=
  "(" ++ Str.slice cleaned 0 3 ++ ") " ++ Str.slice cleaned 3 6
      ++ "-" ++ Str.sliceFrom cleaned 6.

Definition elevenDigitFormat (cleaned : string) : string :=
  "+1 (" ++ Str.slice cleaned 1 4 ++ ") " ++ Str.slice cleaned 4 7
         ++ "-" ++ Str.sliceFrom cleaned 7.

(** The strings that [/^[^\s@]+@[^\s@]+\.[^\s@]+$/] matches: a local part,
    [@], a domain, a dot and a last part, the three parts non-empty and free
    of white space and [@] *)
Definition emailShape (l : list ascii) : Prop :=
  exists localPart domain lastPart,
    l = (localPart ++ "@"%char :: domain ++ "."%char :: lastPart)%list
    /\ localPart <> [] /\ domain <> [] /\ lastPart <> []
    /\ forallb emailChar localPart = true
    /\ forallb emailChar domain = true
    /\ forallb emailChar lastPart = true.

(** Every batch that another batch follows has [batchSize] elements *)
Fixpoint fullButLast {A : Type} (batchSize : nat) (batches : list (list A)) : Prop :=
  match batches with
  | batch :: ((_ :: _) as rest) => length batch = batchSize /\ fullButLast batchSize rest
  | _ => True
  end.

Definition isRecordError (e : SyncError) : bool :=
  match e with RecordError _ _ => true | BatchError _ _ _ => false end.

(** A configuration that passes [validateIntegrationConfig] and the
    simulated [authenticate] *)
Definition runnable (integration : Integration) : Prop :=
  exists source target,
    sourceOrg integration = Some source
    /\ targetOrg integration = Some target
    /\ truthyString (loginUrl source) = true
    /\ truthyString (loginUrl target) = true
    /\ orgName source <> None
    /\ orgName target <> None
    /\ fieldMappings integration <> [].

End Vocabulary.

(** ** A reference host

    Exact rational arithmetic without infinities, to run the model on
    concrete inputs.  It agrees with an engine wherever the engine's
    operation is exact: integer literals and counts, quotients and products
    away from rounding ties, decimal numerals without exponent.  It has no
    calendar: every Date is invalid. *)

Module ReferenceHost.

Inductive xnum : Type :=
| XNaN
| XFin (q : Q).

Definition lift2 (f : Q -> Q -> Q) (a b : xnum) : xnum :=
  match a, b with
  | XFin x, XFin y => XFin (Qred (f x y))
  | _, _ => XNaN
  end.

Definition xdiv (a b : xnum) : xnum :=
  match a, b with
  | XFin x, XFin y => if Qeq_bool y 0 then XNaN else XFin (Qred (x / y))
  | _, _ => XNaN
  end.

Definition xmax (a b : xnum) : xnum :=
  match a, b with
  | XFin x, XFin y => if Qle_bool x y then XFin y else XFin x
  | _, _ => XNaN
  end.

Definition xround (a : xnum) : xnum :=
  match a with
  | XFin x => XFin (inject_Z (Qfloor (x + (1 # 2))))
  | XNaN => XNaN
  end.

Definition xgt (a b : xnum) : bool :=
  match a, b with
  | XFin x, XFin y => negb (Qle_bool x y)
  | _, _ => false
  end.

Definition xtruthy (a : xnum) : bool :=
  match a with
  | XFin x => negb (Qeq_bool x 0)
  | XNaN => false
  end.

Definition digitChar (d : Z) : ascii := ascii_of_nat (48 + Z.to_nat d).

(** The digits of [r / d] after the point, [0 <= r < d], at most [fuel] of them *)
Fixpoint fractionDigits (fuel : nat) (r d : Z) : string :=
  match fuel with
  | 0 => ""
  | S fuel' =>
      if (r =? 0)%Z then ""
      else String (digitChar (r * 10 / d)) (fractionDigits fuel' ((r * 10) mod d) d)
  end.

Definition natural (z : Z) : string := NilZero.string_of_uint (N.to_uint (Z.to_N z)).

Definition xtoString (a : xnum) : string :=
  match a with
  | XNaN => "NaN"
  | XFin x =>
      let q := Qred x in
      let n := Z.abs (Qnum q) in
      let d := Zpos (Qden q) in
      let sign := if (Qnum q <? 0)%Z then "-" else "" in
      let fraction := fractionDigits 17 (n mod d) d in
      sign ++ natural (n / d) ++ (if String.eqb fraction "" then "" else "." ++ fraction)
  end.

Definition xtoFixed2 (a : xnum) : string :=
  match a with
  | XNaN => "NaN"
  | XFin x =>
      let n := Qfloor (Qabs x * 100 + (1 # 2)) in
      let sign := if Qle_bool 0 x then "" else "-" in
      sign ++ natural (n / 100) ++ "."
        ++ String (digitChar ((n mod 100) / 10)) (String (digitChar (n mod 10)) "")
  end.

(** Decimal numerals: digits, and a fraction after a point *)
Fixpoint readDigits (l : list ascii) (acc : Z) (count : nat) : Z * nat * list ascii :=
  match l with
  | c :: r =>
      if Str.isDigit c
      then readDigits r (acc * 10 + Z.of_nat (Str.code c - 48)) (S count)
      else (acc, count, l)
  | [] => (acc, count, [])
  end.

(** The longest numeral at the front of [l] and what follows it *)
Definition readNumeral (l : list ascii) : option (Q * list ascii) :=
  let '(negative, body) :=
    match l with
    | "-"%char :: r => (true, r)
    | "+"%char :: r => (false, r)
    | _ => (false, l)
    end in
  let '(whole, wholeCount, afterWhole) := readDigits body 0 0 in
  let '(fractionValue, fractionCount, rest) :=
    match afterWhole with
    | "."%char :: r => readDigits r 0 0
    | _ => (0%Z, 0, afterWhole)
    end in
  if (wholeCount + fractionCount =? 0) then None
  else
    let rest' := if (fractionCount =? 0) then afterWhole else rest in
    let rest'' :=
      match afterWhole, fractionCount, wholeCount with
      | "."%char :: r, 0, S _ => r
      | _, _, _ => rest'
      end in
    let magnitude :=
      Qred (inject_Z whole + (fractionValue # Pos.of_nat (10 ^ fractionCount)))%Q in
    Some (if negative then Qred (- magnitude) else magnitude, rest'').

Definition xparseFloat (s : string) : xnum :=
  match readNumeral (Str.dropWhile Str.isWhiteSpace (Str.chars s)) with
  | Some (q, _) => XFin q
  | None => XNaN
  end.

Definition xStringToNumber (s : string) : xnum :=
  match Str.chars (Str.trim s) with
  | [] => XFin 0
  | l =>
      match readNumeral l with
      | Some (q, []) => XFin q
      | _ => XNaN
      end
  end.

#[export] Instance host : Host := {|
  num := xnum;
  num_lit := fun q => XFin (Qred q);
  num_NaN := XNaN;
  num_isNaN := fun a => match a with XNaN => true | XFin _ => false end;
  num_truthy := xtruthy;
  num_add := lift2 Qplus;
  num_sub := lift2 Qminus;
  num_mul := lift2 Qmult;
  num_div := xdiv;
  num_max := xmax;
  num_round := xround;
  num_gt := xgt;
  num_toString := xtoString;
  num_toFixed2 := xtoFixed2;
  StringToNumber := xStringToNumber;
  parseFloat_string := xparseFloat;
  Date_parse := fun _ => XNaN;
  TimeClip := fun _ => XNaN;
  Date_toISOString := fun _ => None;
  Date_toString := fun _ => "Invalid Date";
  num_gt_NaN_l := fun _ => eq_refl
|}.

End ReferenceHost.

(** ** Concrete inputs, over the reference host *)

Module Demo.
Import ReferenceHost.

Definition demoOrg (name : string) : Org :=
  {| orgName := Some name; loginUrl := Some "https://login.salesforce.com" |}.

Definition demoIntegration : Integration :=
  {| sourceOrg := Some (demoOrg "Sales");
     targetOrg := Some (demoOrg "Service");
     fieldMappings :=
       [ {| sourceField := "Name"; targetField := "Name";
            transformationRule := Some "normalizeName(value)" |};
         {| sourceField := "Phone"; targetField := "Phone";
            transformationRule := Some "formatPhone(value)" |} ];
     syncSettings := Some {| conflictResolution := Some "ai-resolve" |} |}.

Definition demoRecord (i : nat) : jsobject :=
  [ ("Id", VStr ("account_" ++ ReferenceHost.natural (Z.of_nat i)));
    ("Name", VStr "Tech  Corp");
    ("Phone", VStr "5551234567") ].

(** Record [i] of a run; every seventh record rolls a conflict *)
Definition demoItem (rejection : option thrown) (i : nat) : SourceItem :=
  {| record := Some (demoRecord i);
     conflictRoll := (i mod 7 =? 0);
     writeRejection := rejection |}.

Definition lockedRow : thrown := ErrorObj "Error" "Target system error: UNABLE_TO_LOCK_ROW".

(** 120 records; the writer rejects records 50 to 99, the second batch *)
Definition demoSourceData : list SourceItem :=
  (map (demoItem None) (seq 0 50)
   ++ map (demoItem (Some lockedRow)) (seq 50 50)
   ++ map (demoItem None) (seq 100 20))%list.

(** Three records, the writer rejects the second *)
Definition threeRecords : list SourceItem :=
  [demoItem None 0; demoItem (Some lockedRow) 1; demoItem None 2].

(** A source array whose only entry is [null] *)
Definition nullEntry : SourceItem :=
  {| record := None; conflictRoll := false; writeRejection := None |}.

Definition emailConflict : Conflict :=
  {| field := "Email";
     sourceValue := VStr "A@x.com";
     targetValue := VStr "invalid-email";
     dataType := Some "String";
     conflictType := "DATA_CONFLICT" |}.

Definition stageConflict : Conflict :=
  {| field := "StageName";
     sourceValue := VStr "Open";
     targetValue := VStr "Closed";
     dataType := Some "String";
     conflictType := "DATA_CONFLICT" |}.

Definition statusConflict : Conflict :=
  {| field := "Status";
     sourceValue := VStr "Open";
     targetValue := VStr "Closed";
     dataType := Some "Picklist";
     conflictType := "DATA_CONFLICT" |}.

(** The conflict that [detectUpdateConflicts] reports: no values, no dataType *)
Definition updateConflict : Conflict :=
  {| field := "LastModifiedDate";
     sourceValue := VUndefined;
     targetValue := VUndefined;
     dataType := None;
     conflictType := "UPDATE_CONFLICT" |}.

Definition fanOutRecord : jsobject :=
  [ ("Id", VStr "contact_1"); ("Phone", VStr "5551234567"); ("MobilePhone", VStr "555-000-1111") ].

Definition phoneFromPhone : FieldMapping :=
  {| sourceField := "Phone"; targetField := "Phone";
     transformationRule := Some "formatPhone(value)" |}.

Definition phoneFromMobile : FieldMapping :=
  {| sourceField := "MobilePhone"; targetField := "Phone"; transformationRule := None |}.

Definition mappedContact : jsobject :=
  [ ("Email", VStr "a@x.com"); ("Name", VStr "Ann Lee") ].

(** What the run over [demoSourceData] returns *)
Definition demoResults : BatchResult :=
  Eval vm_compute in
    match performSync demoIntegration demoSourceData with
    | Completed results => results
    | _ => initialResults []
    end.

(** What the run over [threeRecords] returns *)
Definition threeResults : BatchResult :=
  Eval vm_compute in
    match performSync demoIntegration threeRecords with
    | Completed results => results
    | _ => initialResults []
    end.

(** Three source fields and the mapping of one of them to the target [T] *)
Definition threeSources : jsobject :=
  [ ("a", VStr "A"); ("b", VStr "B"); ("c", VStr "C") ].

Definition toTarget (source : string) : FieldMapping :=
  {| sourceField := source; targetField := "T"; transformationRule := None |}.

(** A mapping from a field that [fanOutRecord] does not have *)
Definition faxMapping : FieldMapping :=
  {| sourceField := "Fax"; targetField := "Fax";
     transformationRule := Some "formatPhone(value)" |}.

(** The conflict that [detectConflicts] reports on the first property of
    [mappedContact] *)
Definition detectedEmail : Conflict :=
  {| field := "Email";
     sourceValue := VStr "a@x.com";
     targetValue := VStr "existing_a@x.com";
     dataType := Some "String";
     conflictType := "DATA_CONFLICT" |}.

(** What [processBatch] returns on [threeRecords] *)
Definition threeCounts : BatchCounts :=
  Eval vm_compute in
    match processBatch threeRecords demoIntegration with
    | Normal counts => counts
    | Throw _ => {| successful := 0; failed := 0; conflicts := 0; errors := [] |}
    end.

End Demo.

(** * Properties *)

(** ** Objects *)

Section ObjectFacts.
Context {H : Host}.

Lemma obj_get_set_eq (o : jsobject) (k : string) (v : value) :
  obj_get (obj_set o k v) k = v.
Proof.
  induction o as [|[k' v'] o IH]; simpl.
  - now rewrite String.eqb_refl.
  - destruct (String.eqb k' k) eqn:E; simpl; rewrite E; auto.
Qed.

Lemma obj_get_set_ne (o : jsobject) (k k' : string) (v : value) :
  k <> k' -> obj_get (obj_set o k v) k' = obj_get o k'.
Proof.
  intros Hne. induction o as [|[k0 v0] o IH]; simpl.
  - destruct (String.eqb_spec k k'); [contradiction | reflexivity].
  - destruct (String.eqb_spec k0 k) as [->|Hk]; simpl.
    + destruct (String.eqb_spec k k'); [contradiction | reflexivity].
    + destruct (String.eqb k0 k'); auto.
Qed.

Lemma obj_keys_set (o : jsobject) (k k' : string) (v : value) :
  In k' (obj_keys (obj_set o k v)) <-> k' = k \/ In k' (obj_keys o).
Proof.
  unfold obj_keys. induction o as [|[k0 v0] o IH]; simpl.
  - intuition.
  - destruct (String.eqb_spec k0 k) as [->|Hk]; simpl.
    + intuition.
    + rewrite IH. intuition.
Qed.

End ObjectFacts.

(** ** Conflict resolver *)

Section ResolverFacts.
Context {H : Host}.

Lemma js_or_non_null (a b : value) :
  isNullish a = false -> isNullish b = false -> isNullish (js_or a b) = false.
Proof. unfold js_or. now destruct (truthy a). Qed.

Lemma String_merge_keepsNonNull : keepsNonNull String_merge.
Proof.
  intros s t a b Hs Ht. unfold String_merge.
  destruct (truthy s && truthy t); [reflexivity | now apply js_or_non_null].
Qed.

Lemma Number_merge_keepsNonNull : keepsNonNull Number_merge.
Proof. intros s t a b Hs Ht. reflexivity. Qed.

Lemma Date_merge_keepsNonNull : keepsNonNull Date_merge.
Proof. intros s t a b Hs Ht. unfold Date_merge. now destruct (js_gt s t). Qed.

Lemma Boolean_merge_keepsNonNull : keepsNonNull Boolean_merge.
Proof. intros s t a b Hs Ht. now apply js_or_non_null. Qed.

Lemma latest_wins_keepsNonNull : keepsNonNull latest_wins.
Proof. intros s t a b Hs Ht. unfold latest_wins. now destruct (js_gt a b). Qed.

Lemma dataTypeRule_keepsNonNull (dataType key : string) (m : rule) :
  dataTypeRule dataType key = Some m -> keepsNonNull m.
Proof.
  unfold dataTypeRule. intros E.
  assert (Hmerge : forall m0,
    (if String.eqb dataType "String" then Some String_merge
     else if String.eqb dataType "Number" then Some Number_merge
     else if String.eqb dataType "Date" then Some Date_merge
     else if String.eqb dataType "Boolean" then Some Boolean_merge
     else None) = Some m0 -> keepsNonNull m0).
  { intros m0 E0.
    repeat match type of E0 with
           | (if ?b then _ else _) = _ => destruct b
           end; inversion E0; subst;
      auto using String_merge_keepsNonNull, Number_merge_keepsNonNull,
                 Date_merge_keepsNonNull, Boolean_merge_keepsNonNull. }
  destruct (if String.eqb dataType "String" then _ else _) as [m0|]; [|discriminate].
  specialize (Hmerge m0 eq_refl).
  repeat match type of E with
         | (if ?b then _ else _) = _ => destruct b
         end; inversion E; subst; auto using latest_wins_keepsNonNull;
    intros s t a b Hs Ht; assumption.
Qed.

(** The latest-wins rule called without times answers the target *)
Lemma latest_wins_without_times (source target : value) :
  latest_wins source target VUndefined VUndefined = target.
Proof. unfold latest_wins, js_gt. simpl. now rewrite num_gt_NaN_l. Qed.

Lemma dataTypeRule_latest_wins (dataType : string) (m : rule) :
  dataTypeRule dataType "latest_wins" = Some m -> m = latest_wins.
Proof.
  unfold dataTypeRule.
  destruct (if String.eqb dataType "String" then _ else _); [|discriminate].
  simpl. now inversion 1.
Qed.

(** What the high-priority heuristics answer is one of the two sides *)
Lemma resolveHighPriorityField_selects (f : string) (s t : value) (d : string) (v : value) :
  resolveHighPriorityField f s t d = Normal v -> v = s \/ v = t.
Proof.
  unfold resolveHighPriorityField.
  assert (Hlen : forall a b, (ls <- lengthOf a ;; lt <- lengthOf b ;;
             Normal (if lengthGe ls lt then s else t)) = Normal v -> v = s \/ v = t).
  { intros a b E. destruct (lengthOf a) as [la|]; [|discriminate]. simpl in E.
    destruct (lengthOf b) as [lb|]; [|discriminate]. simpl in E.
    inversion E. destruct (lengthGe la lb); auto. }
  destruct (Str.includes f "Email").
  - destruct (validateEmail s), (validateEmail t); simpl.
    + apply Hlen.
    + inversion 1; auto.
    + inversion 1; auto.
    + destruct (Str.includes f "Phone").
      * intros E. destruct (digitCount _) as [a|]; [|discriminate]. simpl in E.
        destruct (digitCount _) as [b|]; [|discriminate]. simpl in E.
        inversion E. destruct (b <=? a); auto.
      * destruct (Str.includes f "Name"); [apply Hlen | inversion 1; auto].
  - destruct (Str.includes f "Phone").
    + intros E. destruct (digitCount _) as [a|]; [|discriminate]. simpl in E.
      destruct (digitCount _) as [b|]; [|discriminate]. simpl in E.
      inversion E. destruct (b <=? a); auto.
    + destruct (Str.includes f "Name"); [apply Hlen | inversion 1; auto].
Qed.

Lemma resolveAttempt_non_null (c : Conflict) (d strategy : string) (v : value) (q : num) (why : string) :
  isNullish (sourceValue c) = false -> isNullish (targetValue c) = false ->
  resolveAttempt c d strategy = Normal (v, q, why) ->
  isNullish v = false.
Proof.
  intros Hs Ht. unfold resolveAttempt.
  destruct (String.eqb strategy "ai-resolve").
  - destruct (String.eqb _ "high").
    + destruct (resolveHighPriorityField _ _ _ _) as [w|] eqn:E; [|discriminate].
      simpl. inversion 1; subst.
      destruct (resolveHighPriorityField_selects _ _ _ _ _ E); now subst.
    + inversion 1; subst.
      destruct (dataTypeRule d "merge") as [m|] eqn:E.
      * now apply (dataTypeRule_keepsNonNull _ _ _ E).
      * now apply String_merge_keepsNonNull.
  - destruct (dataTypeRule d _) as [m|] eqn:E.
    + inversion 1; subst. now apply (dataTypeRule_keepsNonNull _ _ _ E).
    + destruct (dataTypeRule "String" _) as [m|] eqn:E'; [|discriminate].
      inversion 1; subst. now apply (dataTypeRule_keepsNonNull _ _ _ E').
Qed.

Lemma resolveIndividualConflict_non_null (c : Conflict) (strategy : string) :
  isNullish (sourceValue c) = false -> isNullish (targetValue c) = false ->
  resolved (resolveIndividualConflict c strategy) = true ->
  isNullish (resolvedValue (resolveIndividualConflict c strategy)) = false.
Proof.
  intros Hs Ht. unfold resolveIndividualConflict.
  destruct (resolveAttempt c _ strategy) as [[[v q] why]|e] eqn:E; simpl.
  - intros _. exact (resolveAttempt_non_null _ _ _ _ _ _ Hs Ht E).
  - discriminate.
Qed.

(** C2 (as amended). Under latest-wins the resolver calls the rule with the
    two values only, so no update time reaches it: the resolved value is the
    conflict's targetValue, for every dataType, and the resolution is marked
    resolved. *)
Theorem latest_wins_without_times_selects_target (c : Conflict) :
  resolvedValue (resolveIndividualConflict c "latest-wins") = targetValue c
  /\ resolved (resolveIndividualConflict c "latest-wins") = true.
Proof.
  unfold resolveIndividualConflict, resolveAttempt.
  change (String.eqb "latest-wins" "ai-resolve") with false.
  change (Str.replaceFirst "-" "_" "latest-wins") with "latest_wins".
  cbv iota.
  destruct (dataTypeRule _ "latest_wins") as [m|] eqn:E.
  - apply dataTypeRule_latest_wins in E. subst m. simpl.
    split; [apply latest_wins_without_times | reflexivity].
  - change (dataTypeRule "String" "latest_wins") with (Some latest_wins). simpl.
    split; [apply latest_wins_without_times | reflexivity].
Qed.

(** C5 (as amended). For every list of conflicts whose source and target
    values are all non-null and whose dataType is no name inherited from
    Object.prototype, and every strategy whose rule key is no such name,
    each Resolution of the ResolutionBatch of resolveConflicts with
    resolved = true has a non-null resolvedValue. *)
Theorem resolved_value_non_null (conflicts : list Conflict) (resolutionStrategy : option string)
    (r : Resolution) :
  (forall c, In c conflicts ->
     isNullish (sourceValue c) = false /\ isNullish (targetValue c) = false) ->
  (forall c d, In c conflicts -> dataType c = Some d -> ~ In d objectPrototypeNames) ->
  (forall strategy, resolutionStrategy = Some strategy ->
     ~ In (Str.replaceFirst "-" "_" strategy) objectPrototypeNames) ->
  In r (resolutions (resolveConflicts conflicts resolutionStrategy)) ->
  resolved r = true ->
  isNullish (resolvedValue r) = false.
Proof.
  intros Hall _ _ Hin Hres. unfold resolveConflicts in Hin. simpl in Hin.
  apply in_map_iff in Hin. destruct Hin as [c [<- Hc]].
  destruct (Hall c Hc) as [Hs Ht].
  now apply resolveIndividualConflict_non_null.
Qed.

Lemma dataTypeRule_unknown (d key : string) :
  knownDataType (Some d) = false -> dataTypeRule d key = None.
Proof.
  unfold knownDataType, dataTypeRule. intros E.
  repeat (apply orb_false_iff in E; destruct E as [E ?]).
  now repeat match goal with Hx : String.eqb _ _ = false |- _ => rewrite Hx; clear Hx end.
Qed.

(** The rule key that a strategy selects: [merge] under ai-resolve off the
    high-priority path, the strategy with its first hyphen replaced otherwise *)
Lemma String_rule_of_strategy (strategy : string) :
  strategy = "source-wins" \/ strategy = "target-wins" \/ strategy = "latest-wins"
    \/ strategy = "ai-resolve" ->
  dataTypeRule "String"
    (if String.eqb strategy "ai-resolve" then "merge" else Str.replaceFirst "-" "_" strategy)
  = Some (if String.eqb strategy "ai-resolve" then String_merge
          else if String.eqb strategy "source-wins" then source_wins
          else if String.eqb strategy "target-wins" then target_wins
          else latest_wins).
Proof. intros [->|[->|[->| ->]]]; reflexivity. Qed.

(** C9. A conflict whose dataType is absent or none of String, Number, Date,
    Boolean is resolved under source-wins, target-wins, latest-wins, and under
    ai-resolve for a field that is not of high priority, by the rule of the
    String table: the conflict's own data type has no rule under the key, the
    String table has one, the resolved value is what that rule returns on
    the two values (String's merge under ai-resolve, the source under
    source-wins, the target under target-wins and latest-wins), and the
    Resolution has resolved = true, no error, and is the Resolution of the
    same conflict with dataType String. *)
Theorem unknown_dataType_uses_String_rules (c : Conflict) (strategy : string) :
  knownDataType (dataType c) = false ->
  strategy = "source-wins" \/ strategy = "target-wins" \/ strategy = "latest-wins"
    \/ (strategy = "ai-resolve" /\ fieldPriority (field c) <> Some "high") ->
  let key :=
    if String.eqb strategy "ai-resolve" then "merge" else Str.replaceFirst "-" "_" strategy in
  (forall d, dataType c = Some d -> dataTypeRule d key = None)
  /\ (exists stringRule,
        dataTypeRule "String" key = Some stringRule
        /\ resolvedValue (resolveIndividualConflict c strategy)
           = stringRule (sourceValue c) (targetValue c) VUndefined VUndefined)
  /\ resolvedValue (resolveIndividualConflict c strategy)
     = (if String.eqb strategy "ai-resolve"
        then String_merge (sourceValue c) (targetValue c) VUndefined VUndefined
        else if String.eqb strategy "source-wins" then sourceValue c
        else targetValue c)
  /\ resolved (resolveIndividualConflict c strategy) = true
  /\ res_error (resolveIndividualConflict c strategy) = None
  /\ res_strategy (resolveIndividualConflict c strategy) = strategy
  /\ resolveIndividualConflict c strategy
     = resolveIndividualConflict (withDataType c (Some "String")) strategy.
Proof.
  intros Hunknown Hstrategy key.
  assert (Hown : forall d k, dataType c = Some d -> dataTypeRule d k = None).
  { intros d k Ed. apply dataTypeRule_unknown. now rewrite <- Ed. }
  assert (Hkey : strategy = "source-wins" \/ strategy = "target-wins"
                 \/ strategy = "latest-wins" \/ strategy = "ai-resolve") by tauto.
  pose proof (String_rule_of_strategy strategy Hkey) as Hrule. fold key in Hrule.
  assert (Hattempt : exists q why,
            resolveAttempt c (match dataType c with Some d => d | None => "String" end) strategy
              = Normal ((if String.eqb strategy "ai-resolve" then String_merge
                         else if String.eqb strategy "source-wins" then source_wins
                         else if String.eqb strategy "target-wins" then target_wins
                         else latest_wins)
                          (sourceValue c) (targetValue c) VUndefined VUndefined, q, why)
            /\ resolveAttempt (withDataType c (Some "String")) "String" strategy
               = Normal ((if String.eqb strategy "ai-resolve" then String_merge
                          else if String.eqb strategy "source-wins" then source_wins
                          else if String.eqb strategy "target-wins" then target_wins
                          else latest_wins)
                           (sourceValue c) (targetValue c) VUndefined VUndefined, q, why)).
  { destruct (dataType c) as [d|] eqn:Ed.
    - pose proof (fun k => Hown d k eq_refl) as Hnone.
      unfold resolveAttempt. simpl.
      destruct Hstrategy as [->|[->|[->|[-> Hprio]]]];
        try (change (String.eqb _ "ai-resolve") with false; cbv iota;
             rewrite Hnone; simpl; do 2 eexists; split; reflexivity).
      change (String.eqb "ai-resolve" "ai-resolve") with true. cbv iota.
      destruct (fieldPriority (field c)) as [p|] eqn:Ep.
      + destruct (String.eqb_spec p "high") as [->|Hp]; [congruence|].
        rewrite Hnone. simpl. do 2 eexists; split; reflexivity.
      + change (String.eqb "medium" "high") with false. cbv iota.
        rewrite Hnone. simpl. do 2 eexists; split; reflexivity.
    - unfold resolveAttempt. simpl.
      destruct Hstrategy as [->|[->|[->|[-> Hprio]]]];
        try (do 2 eexists; split; reflexivity).
      change (String.eqb "ai-resolve" "ai-resolve") with true. cbv iota.
      destruct (fieldPriority (field c)) as [p|] eqn:Ep.
      + destruct (String.eqb_spec p "high") as [->|Hp]; [congruence|].
        do 2 eexists; split; reflexivity.
      + do 2 eexists; split; reflexivity. }
  destruct Hattempt as [q [why [E1 E2]]].
  assert (Hvalue :
    resolvedValue (resolveIndividualConflict c strategy)
    = (if String.eqb strategy "ai-resolve" then String_merge
       else if String.eqb strategy "source-wins" then source_wins
       else if String.eqb strategy "target-wins" then target_wins
       else latest_wins) (sourceValue c) (targetValue c) VUndefined VUndefined).
  { unfold resolveIndividualConflict. now rewrite E1. }
  split; [intros d Ed; now apply Hown|].
  split; [eexists; split; [exact Hrule | exact Hvalue]|].
  split; [rewrite Hvalue; destruct Hkey as [->|[->|[->| ->]]];
          first [reflexivity | apply latest_wins_without_times]|].
  split; [unfold resolveIndividualConflict; now rewrite E1|].
  split; [unfold resolveIndividualConflict; now rewrite E1|].
  split; [unfold resolveIndividualConflict; now rewrite E1|].
  unfold resolveIndividualConflict. rewrite E1.
  change (dataType (withDataType c (Some "String"))) with (Some "String").
  cbv iota. rewrite E2. reflexivity.
Qed.

End ResolverFacts.

(** ** Field mapper and conflict application *)

Section MapperFacts.
Context {H : Host}.

Lemma applyMapping_object (sourceRecord mappedRecord : jsobject) (mapping : FieldMapping) :
  applyMapping (Some sourceRecord) mappedRecord mapping
  = Normal (obj_set mappedRecord (targetField mapping) (mappedValue sourceRecord mapping)).
Proof.
  unfold applyMapping, mappedValue. simpl.
  destruct (transformationRule mapping) as [r|]; reflexivity.
Qed.

Lemma applyMappingsFrom_object (sourceRecord : jsobject) (mappings : list FieldMapping) :
  forall mappedRecord,
    applyMappingsFrom (Some sourceRecord) mappedRecord mappings
    = Normal (fold_left (writeMapping sourceRecord) mappings mappedRecord).
Proof.
  induction mappings as [|m ms IH]; intros o; cbn [applyMappingsFrom fold_left].
  - reflexivity.
  - rewrite applyMapping_object. cbn [bind]. apply IH.
Qed.

(** On a record that is an object the mapper never throws *)
Lemma applyFieldMappings_object (sourceRecord : jsobject) (mappings : list FieldMapping) :
  applyFieldMappings (Some sourceRecord) mappings
  = Normal (fold_left (writeMapping sourceRecord) mappings []).
Proof. apply applyMappingsFrom_object. Qed.

Lemma writeMappings_untouched (sourceRecord : jsobject) (mappings : list FieldMapping)
    (target : string) :
  (forall m, In m mappings -> targetField m <> target) ->
  forall mappedRecord,
    obj_get (fold_left (writeMapping sourceRecord) mappings mappedRecord) target
    = obj_get mappedRecord target.
Proof.
  induction mappings as [|m ms IH]; intros Hno o; simpl.
  - reflexivity.
  - rewrite IH by (intros m' Hm'; apply Hno; now right).
    unfold writeMapping. apply obj_get_set_ne. apply Hno. now left.
Qed.

Lemma writeMappings_last (sourceRecord : jsobject) (before after : list FieldMapping)
    (m : FieldMapping) (mappedRecord : jsobject) :
  (forall m', In m' after -> targetField m' <> targetField m) ->
  obj_get (fold_left (writeMapping sourceRecord) (before ++ m :: after) mappedRecord)
          (targetField m)
  = mappedValue sourceRecord m.
Proof.
  intros Hno. rewrite fold_left_app. simpl.
  rewrite writeMappings_untouched by assumption.
  unfold writeMapping. apply obj_get_set_eq.
Qed.

(** C7 (as amended). Fan-out: when a mapping list holds two mappings with
    the same targetField and different sourceFields, no mapping after the
    later one writes that field, and no mapping of the list has the target
    field [__proto__], the value of the field in the mapped record is the
    value that the later mapping alone produces. *)
Theorem fan_out_later_mapping_wins (sourceRecord : jsobject)
    (before between after : list FieldMapping) (earlier later : FieldMapping) :
  targetField earlier = targetField later ->
  sourceField earlier <> sourceField later ->
  (forall m, In m after -> targetField m <> targetField later) ->
  ~ In "__proto__" (map targetField (before ++ earlier :: between ++ later :: after)) ->
  exists mapped alone,
    applyFieldMappings (Some sourceRecord) (before ++ earlier :: between ++ later :: after)
      = Normal mapped
    /\ applyFieldMappings (Some sourceRecord) [later] = Normal alone
    /\ obj_get mapped (targetField later) = obj_get alone (targetField later).
Proof.
  intros _ _ Hafter _.
  rewrite !applyFieldMappings_object.
  do 2 eexists. split; [reflexivity|]. split; [reflexivity|].
  replace (before ++ earlier :: between ++ later :: after)%list
    with ((before ++ earlier :: between) ++ later :: after)%list
    by (rewrite <- app_assoc; reflexivity).
  rewrite writeMappings_last by assumption.
  cbn [fold_left]. unfold writeMapping. now rewrite obj_get_set_eq.
Qed.

Lemma applyResolutions_untouched (rs : list Resolution) (f : string) :
  (forall r, In r rs -> res_field r = f -> resolved r = false) ->
  forall mappedRecord,
    let after :=
      fold_left
        (fun mappedRecord fieldResolution =>
           if resolved fieldResolution
           then obj_set mappedRecord (res_field fieldResolution) (resolvedValue fieldResolution)
           else mappedRecord)
        rs mappedRecord in
    obj_get after f = obj_get mappedRecord f
    /\ (In f (obj_keys after) <-> In f (obj_keys mappedRecord)).
Proof.
  induction rs as [|r rs IH]; intros Hno o; simpl.
  - split; reflexivity.
  - destruct (IH (fun r' Hr' => Hno r' (or_intror Hr'))
                 (if resolved r then obj_set o (res_field r) (resolvedValue r) else o))
      as [Hget Hkeys].
    simpl in Hget, Hkeys. rewrite Hget, Hkeys. clear Hget Hkeys IH.
    destruct (resolved r) eqn:Er; [|split; reflexivity].
    assert (Hne : res_field r <> f).
    { intros Hf. specialize (Hno r (or_introl eq_refl) Hf). congruence. }
    split.
    + now apply obj_get_set_ne.
    + rewrite obj_keys_set. intuition congruence.
Qed.

(** C10. applyConflictResolution writes only the fields named by a
    resolution with resolved = true: a field that no resolution names, or
    that only resolutions with resolved = false name, keeps its value, and
    is a property of the record after exactly when it was one before. *)
Theorem applyConflictResolution_frame (mappedRecord : jsobject) (resolution : ResolutionBatch)
    (f : string) :
  (forall r, In r (resolutions resolution) -> res_field r = f -> resolved r = false) ->
  obj_get (applyConflictResolution mappedRecord resolution) f = obj_get mappedRecord f
  /\ (In f (obj_keys (applyConflictResolution mappedRecord resolution))
      <-> In f (obj_keys mappedRecord)).
Proof.
  intros Hno. unfold applyConflictResolution.
  exact (applyResolutions_untouched _ _ Hno mappedRecord).
Qed.

End MapperFacts.

(** ** Transformer *)

Section TransformerFacts.
Context {H : Host}.

Lemma transformer_cases (rule : string) :
  transformer rule = formatPhone \/ transformer rule = normalizeEmail
  \/ transformer rule = formatDate \/ transformer rule = formatCurrency
  \/ transformer rule = normalizeName \/ transformer rule = directMapping.
Proof.
  unfold transformer.
  repeat match goal with |- context [if ?b then _ else _] => destruct b end; tauto.
Qed.

Lemma formatDate_total (v : value) : exists w, formatDate v = Normal w.
Proof.
  unfold formatDate. destruct (negb (truthy v)); [eauto|].
  destruct (Date_toISOString _); eauto.
Qed.

Lemma formatCurrency_total (v : value) : exists w, formatCurrency v = Normal w.
Proof.
  unfold formatCurrency. destruct (negb (truthy v)); [eauto|].
  destruct (num_isNaN _); eauto.
Qed.

Lemma transformer_falsy (rule : string) (v : value) :
  truthy v = false -> transformer rule v = Normal v.
Proof.
  intros Hv.
  destruct (transformer_cases rule) as [->|[->|[->|[->|[->| ->]]]]];
    unfold formatPhone, normalizeEmail, formatDate, formatCurrency, normalizeName,
           directMapping; now rewrite ?Hv.
Qed.

Lemma transformer_string (rule s : string) : exists w, transformer rule (VStr s) = Normal w.
Proof.
  destruct (transformer_cases rule) as [->|[->|[->|[->|[->| ->]]]]].
  - unfold formatPhone. destruct (negb _); [eauto|].
    destruct (_ =? 10); [eauto|]. destruct (_ && _); eauto.
  - unfold normalizeEmail. destruct (negb _); eauto.
  - apply formatDate_total.
  - apply formatCurrency_total.
  - unfold normalizeName. destruct (negb _); eauto.
  - unfold directMapping. eauto.
Qed.

(** C4 (as amended). Each transformer returns normally on every string and
    on every falsy value, a falsy value unchanged; formatDate, formatCurrency
    and direct return normally on every value, formatDate with the input
    unchanged when it is no valid date and formatCurrency with the input
    unchanged when it parses to NaN; formatPhone returns a string unchanged
    whenever its digit-stripped form is not 10 digits nor 11 digits starting
    with 1.  On a truthy value that is not a string formatPhone,
    normalizeEmail and normalizeName throw; applyTransformation, through
    which the mapper calls every transformer, then returns the input
    unchanged. *)
Theorem transformers_total_behind_applyTransformation (rule : string) (v : value) :
  (isString v = true \/ truthy v = false -> exists w, transformer rule v = Normal w)
  /\ (truthy v = false -> transformer rule v = Normal v)
  /\ (exists w, formatDate v = Normal w)
  /\ (exists w, formatCurrency v = Normal w)
  /\ directMapping v = Normal v
  /\ (Date_toISOString (newDate v) = None -> formatDate v = Normal v)
  /\ (num_isNaN (parseFloat_string (ToString v)) = true -> formatCurrency v = Normal v)
  /\ (forall s, v = VStr s ->
        String.length (Str.stripNonDigits s) <> 10 ->
        ~ (String.length (Str.stripNonDigits s) = 11
           /\ String.get 0 (Str.stripNonDigits s) = Some "1"%char) ->
        formatPhone v = Normal v)
  /\ (isString v = false -> truthy v = true ->
        exists e1 e2 e3,
          formatPhone v = Throw e1 /\ normalizeEmail v = Throw e2 /\ normalizeName v = Throw e3)
  /\ (forall e, transformer rule v = Throw e -> applyTransformation v rule = v).
Proof.
  repeat split.
  - intros [Hs|Hf].
    + destruct v; try discriminate. apply transformer_string.
    + exists v. now apply transformer_falsy.
  - apply transformer_falsy.
  - apply formatDate_total.
  - apply formatCurrency_total.
  - unfold formatDate. intros ->. now destruct (negb (truthy v)).
  - unfold formatCurrency. intros ->. now destruct (negb (truthy v)).
  - intros s -> Hten Heleven. unfold formatPhone.
    destruct (negb _); [reflexivity|].
    destruct (Nat.eqb_spec (String.length (Str.stripNonDigits s)) 10); [contradiction|].
    destruct (Nat.eqb_spec (String.length (Str.stripNonDigits s)) 11) as [E|E];
      [|reflexivity].
    unfold Str.firstIs.
    destruct (String.get 0 (Str.stripNonDigits s)) as [c|] eqn:Ec; [|reflexivity].
    destruct (Ascii.eqb_spec c "1"%char) as [->|]; [|reflexivity].
    exfalso. apply Heleven. now split.
  - intros Hs Ht. unfold formatPhone, normalizeEmail, normalizeName. rewrite Ht. simpl.
    destruct v; try discriminate; do 3 eexists; repeat split; reflexivity.
  - intros e E. unfold applyTransformation. rewrite E. now destruct (negb (truthy v)).
Qed.

End TransformerFacts.

(** ** Batch sync engine *)

Section EngineFacts.
Context {H : Host}.

(** The [try] block of a record adds one success when it ends normally and
    leaves the failure count and the errors alone *)
Lemma tryRecord_counts (integration : Integration) (item : SourceItem) (results : BatchCounts) :
  failed (fst (tryRecord integration item results)) = failed results
  /\ errors (fst (tryRecord integration item results)) = errors results
  /\ successful (fst (tryRecord integration item results))
     = match snd (tryRecord integration item results) with
       | Normal _ => successful results + 1
       | Throw _ => successful results
       end.
Proof.
  unfold tryRecord.
  destruct (applyFieldMappings _ _) as [mapped|e]; [|simpl; auto].
  destruct (0 <? length (detectConflicts _ _)).
  - destruct (syncSettings integration) as [settings|]; [|simpl; auto].
    destruct (0 <? resolvedConflicts _); destruct (syncToTarget item); simpl; auto.
  - destruct (syncToTarget item); simpl; auto.
Qed.

(** With a record that is an object and sync settings in place, the block
    ends as the write does *)
Lemma tryRecord_ends_as_write (integration : Integration) (item : SourceItem)
    (results : BatchCounts) (r : jsobject) (settings : SyncSettings) :
  record item = Some r -> syncSettings integration = Some settings ->
  snd (tryRecord integration item results)
  = match writeRejection item with None => Normal tt | Some e => Throw e end.
Proof.
  intros Hr Hs. unfold tryRecord. rewrite Hr, Hs.
  rewrite applyFieldMappings_object.
  unfold syncToTarget.
  destruct (0 <? length (detectConflicts _ _));
    [destruct (0 <? resolvedConflicts _)|];
    destruct (writeRejection item); reflexivity.
Qed.

(** Each record of a batch that returns is counted once, as a success or as
    a failure *)
Lemma processRecords_counts (integration : Integration) (batch : list SourceItem) :
  forall results out,
    processRecords integration batch results = Normal out ->
    successful out + failed out = successful results + failed results + length batch.
Proof.
  induction batch as [|item rest IH]; intros results out; cbn [processRecords length].
  - inversion 1. lia.
  - pose proof (tryRecord_counts integration item results) as [Hf [_ Hs]].
    destruct (tryRecord integration item results) as [results' [u|e]]; simpl in Hf, Hs.
    + intros E. apply IH in E. lia.
    + destruct (recordId_of item) as [id|]; [|discriminate]. cbn [bind].
      destruct (errorMessage e) as [msg|]; [|discriminate]. cbn [bind].
      intros E. apply IH in E. simpl in E. lia.
Qed.

Lemma processBatch_counts (integration : Integration) (batch : list SourceItem)
    (out : BatchCounts) :
  processBatch batch integration = Normal out ->
  successful out + failed out = length batch.
Proof. intros E. apply processRecords_counts in E. simpl in E. lia. Qed.

Lemma thrownRecords_cons (integration : Integration) (batch : list SourceItem)
    (rest : list (list SourceItem)) :
  thrownRecords integration (batch :: rest)
  = match processBatch batch integration with
    | Normal _ => 0
    | Throw _ => length batch
    end + thrownRecords integration rest.
Proof. reflexivity. Qed.

(** The accounting of the batch loop: a batch that returns keeps
    [successfulRecords + failedRecords] level with [processedRecords]; a batch
    that throws adds its size to [failedRecords] alone *)
Lemma batchLoop_accounting (integration : Integration) (batches : list (list SourceItem)) :
  forall i results out,
    batchLoop integration i batches results = Normal out ->
    successfulRecords out + failedRecords out + processedRecords results
    = successfulRecords results + failedRecords results + processedRecords out
      + thrownRecords integration batches.
Proof.
  induction batches as [|batch rest IH]; intros i results out; cbn [batchLoop].
  - inversion 1. unfold thrownRecords. simpl. lia.
  - rewrite thrownRecords_cons. unfold accountBatch.
    destruct (processBatch batch integration) as [counts|e] eqn:Eb; cbn [bind].
    + intros E. apply IH in E. simpl in E.
      apply processBatch_counts in Eb. lia.
    + destruct (errorMessage e) as [msg|]; [|discriminate]. cbn [bind].
      intros E. apply IH in E. simpl in E. lia.
Qed.

Lemma processRecords_all_written (integration : Integration) (settings : SyncSettings)
    (batch : list SourceItem) :
  syncSettings integration = Some settings ->
  (forall item, In item batch -> record item <> None /\ writeRejection item = None) ->
  forall results, exists out,
    processRecords integration batch results = Normal out
    /\ successful out = successful results + length batch
    /\ failed out = failed results
    /\ errors out = errors results.
Proof.
  intros Hs. induction batch as [|item rest IH]; intros Hall results; cbn [processRecords length].
  - exists results. repeat split; lia.
  - destruct (Hall item (or_introl eq_refl)) as [Hr Hw].
    destruct (record item) as [r|] eqn:Er; [|congruence].
    pose proof (tryRecord_counts integration item results) as [Hf [He Hsucc]].
    pose proof (tryRecord_ends_as_write integration item results r settings Er Hs) as Hend.
    rewrite Hw in Hend.
    destruct (tryRecord integration item results) as [results' c]; simpl in *. subst c.
    destruct (IH (fun it Hin => Hall it (or_intror Hin)) results') as [out [E [A [B C]]]].
    exists out. repeat split; [exact E | lia | lia | congruence].
Qed.

Lemma processRecords_all_rejected (integration : Integration) (settings : SyncSettings)
    (batch : list SourceItem) :
  syncSettings integration = Some settings ->
  (forall item, In item batch ->
     record item <> None
     /\ exists name message, writeRejection item = Some (ErrorObj name message)) ->
  forall results, exists out,
    processRecords integration batch results = Normal out
    /\ successful out = successful results
    /\ failed out = failed results + length batch
    /\ errors out = (errors results ++ map recordErrorOf batch)%list.
Proof.
  intros Hs. induction batch as [|item rest IH]; intros Hall results; cbn [processRecords length map].
  - exists results. repeat split; try lia. now rewrite app_nil_r.
  - destruct (Hall item (or_introl eq_refl)) as [Hr [name [message Hw]]].
    destruct (record item) as [r|] eqn:Er; [|congruence].
    pose proof (tryRecord_counts integration item results) as [Hf [He Hsucc]].
    pose proof (tryRecord_ends_as_write integration item results r settings Er Hs) as Hend.
    rewrite Hw in Hend.
    destruct (tryRecord integration item results) as [results' c]; simpl in *. subst c.
    unfold recordId_of. rewrite Er. cbn [recordGet bind errorMessage].
    match goal with |- context [processRecords integration rest ?x] =>
      destruct (IH (fun it Hin => Hall it (or_intror Hin)) x) as [out [E [A [B C]]]] end.
    simpl in A, B, C.
    exists out. repeat split; [exact E | lia | lia |].
    rewrite C, He, <- app_assoc. unfold recordErrorOf at 2. now rewrite Er, Hw.
Qed.

(** [createBatches] with enough fuel: the first batch and the rest *)
Lemma createBatchesFrom_step {A : Type} (fuel i : nat) (array : list A) (batchSize : nat) :
  createBatchesFrom (S fuel) i array batchSize
  = if i <? length array
    then arraySlice array i (i + batchSize) :: createBatchesFrom fuel (i + batchSize) array batchSize
    else [].
Proof. reflexivity. Qed.

Lemma createBatches_120 {A : Type} (array : list A) :
  length array = 120 ->
  createBatches array 50
  = [arraySlice array 0 50; arraySlice array 50 100; arraySlice array 100 150].
Proof.
  intros Hlen. unfold createBatches. rewrite Hlen.
  do 4 (rewrite createBatchesFrom_step, Hlen; cbn [Nat.ltb Nat.leb Nat.add]).
  reflexivity.
Qed.

(** With a positive batch size the fuel of [createBatches] is enough: the
    batches, in order, are the whole array *)
Lemma createBatchesFrom_concat {A : Type} (array : list A) (batchSize : nat) :
  0 < batchSize ->
  forall fuel i,
    length array - i <= fuel ->
    concat (createBatchesFrom fuel i array batchSize) = skipn i array.
Proof.
  intros Hpos. induction fuel as [|fuel IH]; intros i Hfuel.
  - simpl. symmetry. apply skipn_all2. lia.
  - rewrite createBatchesFrom_step.
    destruct (Nat.ltb_spec i (length array)) as [Hlt|Hge].
    + cbn [concat]. rewrite IH by lia. unfold arraySlice.
      replace (i + batchSize - i) with batchSize by lia.
      rewrite (Nat.add_comm i batchSize), <- skipn_skipn.
      apply firstn_skipn.
    + simpl. symmetry. apply skipn_all2. lia.
Qed.

Lemma createBatches_concat {A : Type} (array : list A) (batchSize : nat) :
  0 < batchSize -> concat (createBatches array batchSize) = array.
Proof.
  intros Hpos. unfold createBatches.
  rewrite createBatchesFrom_concat by (try assumption; lia). reflexivity.
Qed.

End EngineFacts.

Section SyncFacts.
Context {H : Host}.

(** A run that completes went through the batch loop *)
Lemma performSync_completed (integration : Integration) (sourceData : list SourceItem)
    (results : BatchResult) :
  performSync integration sourceData = Completed results ->
  exists looped,
    batchLoop integration 0 (createBatches sourceData 50) (initialResults sourceData)
      = Normal looped
    /\ results = finalResults looped.
Proof.
  unfold performSync.
  destruct (validateIntegrationConfig integration) as [u|e]; cbn [bind];
    [|destruct (errorMessage e); discriminate].
  destruct (authenticate (sourceOrg integration)) as [u1|e]; cbn [bind];
    [|destruct (errorMessage e); discriminate].
  destruct (authenticate (targetOrg integration)) as [u2|e]; cbn [bind];
    [|destruct (errorMessage e); discriminate].
  fold (initialResults sourceData).
  destruct (batchLoop integration 0 _ _) as [looped|e]; cbn [bind];
    [|destruct (errorMessage e); discriminate].
  inversion 1. exists looped. split; reflexivity.
Qed.

(** A run on a valid, authenticated integration completes when its batch
    loop does *)
Lemma performSync_runs (integration : Integration) (sourceData : list SourceItem)
    (looped : BatchResult) :
  validateIntegrationConfig integration = Normal tt ->
  authenticate (sourceOrg integration) = Normal tt ->
  authenticate (targetOrg integration) = Normal tt ->
  batchLoop integration 0 (createBatches sourceData 50) (initialResults sourceData)
    = Normal looped ->
  performSync integration sourceData = Completed (finalResults looped).
Proof.
  intros Hv Hs Ht Hloop. unfold performSync. rewrite Hv, Hs, Ht. cbn [bind].
  fold (initialResults sourceData). rewrite Hloop. reflexivity.
Qed.

Lemma batchLoop_totalRecords (integration : Integration) (batches : list (list SourceItem)) :
  forall i results out,
    batchLoop integration i batches results = Normal out ->
    totalRecords out = totalRecords results.
Proof.
  induction batches as [|batch rest IH]; intros i results out; cbn [batchLoop].
  - now inversion 1.
  - unfold accountBatch. destruct (processBatch batch integration) as [counts|e]; cbn [bind].
    + intros E. now apply IH in E.
    + destruct (errorMessage e); [|discriminate]. cbn [bind]. intros E. now apply IH in E.
Qed.

(** The counts of a completed run: the successes and failures exceed the
    processed records by the sizes of the batches that threw *)
Lemma performSync_accounting (integration : Integration) (sourceData : list SourceItem)
    (results : BatchResult) :
  performSync integration sourceData = Completed results ->
  successfulRecords results + failedRecords results
  = processedRecords results + thrownRecords integration (createBatches sourceData 50).
Proof.
  intros Hrun. apply performSync_completed in Hrun. destruct Hrun as [looped [Hloop ->]].
  apply batchLoop_accounting in Hloop. simpl in *. lia.
Qed.

(** C6 (as amended). When performSync completes, the successRate of the
    returned BatchResult is the string that toFixed(2) prints for
    successfulRecords / totalRecords * 100, the percentage rounded to two
    decimals, and the number 0 when totalRecords is 0; totalRecords is the
    number of source records. *)
Theorem successRate_is_percentage_toFixed2 (integration : Integration)
    (sourceData : list SourceItem) (results : BatchResult) :
  performSync integration sourceData = Completed results ->
  (0 < totalRecords results ->
     successRate results
     = VStr (num_toFixed2
               (num_mul (num_div (num_of_nat (successfulRecords results))
                                 (num_of_nat (totalRecords results)))
                        (num_lit 100))))
  /\ (totalRecords results = 0 -> successRate results = VNum (num_lit 0))
  /\ totalRecords results = length sourceData.
Proof.
  intros Hrun. apply performSync_completed in Hrun. destruct Hrun as [looped [Hloop ->]].
  apply batchLoop_totalRecords in Hloop. simpl in Hloop.
  unfold finalResults, computeSuccessRate. simpl. repeat split.
  - intros Hpos. apply Nat.ltb_lt in Hpos. now rewrite Hpos.
  - intros ->. reflexivity.
  - exact Hloop.
Qed.

Lemma arraySlice_length {A : Type} (array : list A) (i j : nat) :
  j <= length array -> length (arraySlice array i j) = j - i.
Proof.
  intros Hj. unfold arraySlice. rewrite length_firstn, length_skipn. lia.
Qed.

Lemma In_firstn {A : Type} (x : A) :
  forall n l, In x (firstn n l) -> In x l.
Proof.
  induction n as [|n IH]; intros [|a l] Hin; simpl in *; try contradiction.
  destruct Hin as [->|Hin]; auto.
Qed.

Lemma In_skipn {A : Type} (x : A) :
  forall n l, In x (skipn n l) -> In x l.
Proof.
  induction n as [|n IH]; intros [|a l] Hin; simpl in *; auto.
Qed.

Lemma arraySlice_In {A : Type} (array : list A) (i j : nat) (x : A) :
  In x (arraySlice array i j) -> In x array.
Proof.
  unfold arraySlice. intros Hin. eapply In_skipn, In_firstn, Hin.
Qed.

(** C3 (as amended). For a sync run of a valid integration with sync
    settings over 120 source records, batch size 50 (batches of 50, 50 and
    20), in which the destination writer rejects with an Error every record
    of the second batch and succeeds for all others, the returned BatchResult
    has successfulRecords = 70 and failedRecords = 50, and its errors list
    holds 50 entries, one for each record of the second batch with the
    record's Id and the writer's message, and no batch entry. *)
Theorem second_batch_write_failures_are_record_errors (integration : Integration)
    (settings : SyncSettings) (sourceData : list SourceItem) :
  validateIntegrationConfig integration = Normal tt ->
  authenticate (sourceOrg integration) = Normal tt ->
  authenticate (targetOrg integration) = Normal tt ->
  syncSettings integration = Some settings ->
  length sourceData = 120 ->
  (forall item, In item sourceData -> record item <> None) ->
  (forall item, In item (arraySlice sourceData 50 100) ->
     exists name message, writeRejection item = Some (ErrorObj name message)) ->
  (forall item, In item (arraySlice sourceData 0 50) \/ In item (arraySlice sourceData 100 150) ->
     writeRejection item = None) ->
  exists results,
    performSync integration sourceData = Completed results
    /\ createBatches sourceData 50
       = [arraySlice sourceData 0 50; arraySlice sourceData 50 100; arraySlice sourceData 100 150]
    /\ map (@length SourceItem) (createBatches sourceData 50) = [50; 50; 20]
    /\ successfulRecords results = 70
    /\ failedRecords results = 50
    /\ processedRecords results = 120
    /\ syncErrors results = map recordErrorOf (arraySlice sourceData 50 100)
    /\ length (syncErrors results) = 50
    /\ filter isBatchError (syncErrors results) = [].
Proof.
  intros Hv Hsrc Htgt Hset Hlen Hrec Hrej Hok.
  pose proof (createBatches_120 sourceData Hlen) as Hbatches.
  assert (L1 : length (arraySlice sourceData 0 50) = 50)
    by (unfold arraySlice; rewrite length_firstn, length_skipn; lia).
  assert (L2 : length (arraySlice sourceData 50 100) = 50)
    by (unfold arraySlice; rewrite length_firstn, length_skipn; lia).
  assert (L3 : length (arraySlice sourceData 100 150) = 20)
    by (unfold arraySlice; rewrite length_firstn, length_skipn; lia).
  destruct (processRecords_all_written integration settings (arraySlice sourceData 0 50) Hset)
    with (results := {| successful := 0; failed := 0; conflicts := 0; errors := [] |})
    as [out1 [E1 [S1 [F1 R1]]]].
  { intros item Hin. split; [eapply Hrec, arraySlice_In; eauto | apply Hok; auto]. }
  destruct (processRecords_all_rejected integration settings (arraySlice sourceData 50 100) Hset)
    with (results := {| successful := 0; failed := 0; conflicts := 0; errors := [] |})
    as [out2 [E2 [S2 [F2 R2]]]].
  { intros item Hin. split; [eapply Hrec, arraySlice_In; eauto | apply Hrej; auto]. }
  destruct (processRecords_all_written integration settings (arraySlice sourceData 100 150) Hset)
    with (results := {| successful := 0; failed := 0; conflicts := 0; errors := [] |})
    as [out3 [E3 [S3 [F3 R3]]]].
  { intros item Hin. split; [eapply Hrec, arraySlice_In; eauto | apply Hok; auto]. }
  simpl in S1, F1, R1, S2, F2, R2, S3, F3, R3.
  eexists. split.
  - apply performSync_runs; try assumption.
    rewrite Hbatches. cbn [batchLoop]. unfold accountBatch, processBatch.
    rewrite E1. cbn [bind]. rewrite E2. cbn [bind]. rewrite E3. cbn [bind].
    reflexivity.
  - split; [exact Hbatches|].
    split; [rewrite Hbatches; simpl; now rewrite L1, L2, L3|].
    unfold finalResults, initialResults. simpl.
    rewrite S1, S2, S3, F1, F2, F3, R1, R2, R3, L1, L2, L3. simpl.
    rewrite app_nil_r.
    repeat split; try reflexivity.
    + now rewrite length_map.
    + clear. induction (arraySlice sourceData 50 100) as [|item l IH]; simpl; auto.
Qed.

End SyncFacts.

(** ** Similarity scorer *)

Section ScorerFacts.
Context {H : Host}.

Lemma editDistance_nil_r (u : list ascii) : editDistance u [] = length u.
Proof. now destruct u. Qed.

Lemma editDistance_nil_l (v : list ascii) : editDistance [] v = length v.
Proof. now destruct v. Qed.

Lemma editDistance_cons (a b : ascii) (u v : list ascii) :
  editDistance (a :: u) (b :: v)
  = if Ascii.eqb a b then editDistance u v
    else Nat.min (editDistance u v + 1)
                 (Nat.min (editDistance (a :: u) v + 1) (editDistance u (b :: v) + 1)).
Proof. reflexivity. Qed.

Lemma editDistance_sym : forall u v, editDistance u v = editDistance v u.
Proof.
  induction u as [|a u IHu]; intros v.
  - now rewrite editDistance_nil_r, editDistance_nil_l.
  - induction v as [|b v IHv].
    + now rewrite editDistance_nil_r, editDistance_nil_l.
    + rewrite !editDistance_cons, (Ascii.eqb_sym b a).
      destruct (Ascii.eqb a b).
      * apply IHu.
      * rewrite IHv, (IHu v), (IHu (b :: v)). lia.
Qed.

Lemma rowFrom_empty (suffix : list ascii) :
  forall p, rowFrom [] p suffix = seq (length p) (S (length suffix)).
Proof.
  induction suffix as [|c rest IH]; intros p; cbn [rowFrom length seq].
  - now rewrite editDistance_nil_l.
  - rewrite editDistance_nil_l. f_equal. now rewrite IH.
Qed.

Lemma rowFrom_head (u p suffix : list ascii) :
  rowFrom u p suffix = editDistance u p :: tl (rowFrom u p suffix).
Proof. now destruct suffix. Qed.

Lemma fillRow_step (c2 c1 : ascii) (rest : list ascii) (diag up left : nat) (above : list nat) :
  fillRow c2 (c1 :: rest) (diag :: up :: above) left
  = let cell :=
      if Ascii.eqb c2 c1 then diag
      else Nat.min (diag + 1) (Nat.min (left + 1) (up + 1)) in
    cell :: fillRow c2 rest (up :: above) cell.
Proof. reflexivity. Qed.

Lemma fillRow_rowFrom (c2 : ascii) (u : list ascii) (suffix : list ascii) :
  forall p,
    fillRow c2 suffix (rowFrom u p suffix) (editDistance (c2 :: u) p)
    = tl (rowFrom (c2 :: u) p suffix).
Proof.
  induction suffix as [|c1 rest IH]; intros p.
  - reflexivity.
  - cbn [rowFrom tl].
    rewrite (rowFrom_head u (c1 :: p) rest), fillRow_step. cbv zeta.
    rewrite <- (rowFrom_head u (c1 :: p) rest), <- editDistance_cons, IH.
    symmetry. apply rowFrom_head.
Qed.

Lemma matrixRow_rowFrom (c2 : ascii) (u str1 : list ascii) :
  S (length u) :: fillRow c2 str1 (rowFrom u [] str1) (S (length u))
  = rowFrom (c2 :: u) [] str1.
Proof.
  change (S (length u)) with (editDistance (c2 :: u) []).
  rewrite fillRow_rowFrom. now destruct str1.
Qed.

Lemma nth_succ {A : Type} (n : nat) (x : A) (l : list A) (d : A) :
  nth (S n) (x :: l) d = nth n l d.
Proof. reflexivity. Qed.

Lemma fillMatrix_last_row (str1 : list ascii) :
  forall str2 u,
    nth (length str2)
        (rowFrom u [] str1 :: fillMatrix str2 str1 (S (length u)) (rowFrom u [] str1)) []
    = rowFrom (rev str2 ++ u) [] str1.
Proof.
  induction str2 as [|c2 rest IH]; intros u.
  - reflexivity.
  - cbn [length fillMatrix]. rewrite nth_succ, matrixRow_rowFrom.
    change (S (S (length u))) with (S (length (c2 :: u))).
    rewrite IH. cbn [rev]. now rewrite <- app_assoc.
Qed.

Lemma rowFrom_last (u : list ascii) :
  forall suffix p,
    nth (length suffix) (rowFrom u p suffix) 0 = editDistance u (rev suffix ++ p).
Proof.
  induction suffix as [|c rest IH]; intros p.
  - reflexivity.
  - cbn [length rowFrom]. rewrite nth_succ, IH. cbn [rev]. now rewrite <- app_assoc.
Qed.

(** The matrix computes the edit distance *)
Lemma calculateLevenshteinDistance_editDistance (str1 str2 : string) :
  calculateLevenshteinDistance str1 str2
  = editDistance (rev (Str.chars str2)) (rev (Str.chars str1)).
Proof.
  unfold calculateLevenshteinDistance, levenshteinMatrix. cbv zeta.
  change (seq 0 (S (length (Str.chars str1))))
    with (seq (length (@nil ascii)) (S (length (Str.chars str1)))).
  rewrite <- (rowFrom_empty (Str.chars str1) []).
  change 1 with (S (length (@nil ascii))).
  rewrite fillMatrix_last_row, rowFrom_last. now rewrite !app_nil_r.
Qed.

Lemma calculateLevenshteinDistance_sym (str1 str2 : string) :
  calculateLevenshteinDistance str1 str2 = calculateLevenshteinDistance str2 str1.
Proof.
  rewrite !calculateLevenshteinDistance_editDistance. apply editDistance_sym.
Qed.

(** Swapping the two fields together with their alias lists never changes
    the score *)
Lemma calculateFieldSimilarity_swap (a b : string) (aliasA aliasB : list string) :
  calculateFieldSimilarity a b aliasA aliasB = calculateFieldSimilarity b a aliasB aliasA.
Proof.
  unfold calculateFieldSimilarity.
  rewrite (String.eqb_sym (Str.toLowerCase b) (Str.toLowerCase a)).
  destruct (String.eqb (Str.toLowerCase a) (Str.toLowerCase b)); [reflexivity|].
  destruct (inMatches aliasA b), (inMatches aliasB a); try reflexivity.
  rewrite (orb_comm (Str.includes (Str.toLowerCase b) (Str.toLowerCase a))).
  destruct (_ || _); [reflexivity|].
  now rewrite calculateLevenshteinDistance_sym, Nat.max_comm.
Qed.

(** C8. The similarity score is symmetric whenever both orderings resolve by
    the exact-match, substring or Levenshtein branch: for all field names a,
    b and alias lists such that no alias branch applies in either direction,
    score(a, b, aliasA, aliasB) = score(b, a, aliasB, aliasA). *)
Theorem similarity_symmetric_without_alias (a b : string) (aliasA aliasB : list string) :
  resolvesWithoutAlias a b aliasA aliasB = true ->
  resolvesWithoutAlias b a aliasB aliasA = true ->
  calculateFieldSimilarity a b aliasA aliasB = calculateFieldSimilarity b a aliasB aliasA.
Proof. intros _ _. apply calculateFieldSimilarity_swap. Qed.

End ScorerFacts.

(** ** Strings *)

Section StringFacts.

Lemma chars_ofChars (l : list ascii) : Str.chars (Str.ofChars l) = l.
Proof. apply list_ascii_of_string_of_list_ascii. Qed.

Lemma ofChars_chars (s : string) : Str.ofChars (Str.chars s) = s.
Proof. apply string_of_list_ascii_of_string. Qed.

Lemma chars_append (a b : string) :
  Str.chars (a ++ b)%string = (Str.chars a ++ Str.chars b)%list.
Proof. induction a as [|c a IH]; simpl; [reflexivity | now rewrite <- IH]. Qed.

Lemma chars_length (s : string) : length (Str.chars s) = String.length s.
Proof. induction s as [|c s IH]; simpl; [reflexivity | now rewrite <- IH]. Qed.

Lemma chars_substring (s : string) :
  forall n m, Str.chars (substring n m s) = firstn m (skipn n (Str.chars s)).
Proof.
  induction s as [|c s IH]; intros [|n] [|m]; simpl; try reflexivity.
  - now rewrite (IH 0 m).
  - apply IH.
  - apply IH.
Qed.

Lemma chars_injective (a b : string) : Str.chars a = Str.chars b -> a = b.
Proof. intros E. rewrite <- (ofChars_chars a), <- (ofChars_chars b). now rewrite E. Qed.

Lemma lowerChar_idempotent (c : ascii) : Str.lowerChar (Str.lowerChar c) = Str.lowerChar c.
Proof. destruct c as [[] [] [] [] [] [] [] []]; reflexivity. Qed.

Lemma isWhiteSpace_lowerChar (c : ascii) :
  Str.isWhiteSpace (Str.lowerChar c) = Str.isWhiteSpace c.
Proof. destruct c as [[] [] [] [] [] [] [] []]; reflexivity. Qed.

Lemma toLowerCase_idempotent (s : string) :
  Str.toLowerCase (Str.toLowerCase s) = Str.toLowerCase s.
Proof.
  unfold Str.toLowerCase. rewrite chars_ofChars, map_map.
  f_equal. apply map_ext. apply lowerChar_idempotent.
Qed.

Lemma toLowerCase_length (s : string) :
  String.length (Str.toLowerCase s) = String.length s.
Proof.
  unfold Str.toLowerCase. now rewrite <- chars_length, chars_ofChars, length_map, chars_length.
Qed.

Lemma dropWhile_map (p : ascii -> bool) (f : ascii -> ascii) (l : list ascii) :
  (forall c, p (f c) = p c) ->
  Str.dropWhile p (map f l) = map f (Str.dropWhile p l).
Proof.
  intros Hp. induction l as [|c l IH]; simpl; [reflexivity|].
  rewrite Hp. now destruct (p c).
Qed.

Lemma dropWhile_idempotent (p : ascii -> bool) (l : list ascii) :
  Str.dropWhile p (Str.dropWhile p l) = Str.dropWhile p l.
Proof.
  induction l as [|c l IH]; simpl; [reflexivity|].
  destruct (p c) eqn:E; [exact IH | simpl; now rewrite E].
Qed.

(** What [dropWhile] drops is a prefix *)
Lemma dropWhile_suffix (p : ascii -> bool) (l : list ascii) :
  exists dropped, l = (dropped ++ Str.dropWhile p l)%list.
Proof.
  induction l as [|c l [d IH]]; simpl.
  - now exists [].
  - destruct (p c); [exists (c :: d); simpl; now rewrite <- IH | now exists []].
Qed.

Lemma dropWhile_fixed (p : ascii -> bool) (l : list ascii) :
  Str.dropWhile p l = l <-> l = [] \/ exists c r, l = c :: r /\ p c = false.
Proof.
  split.
  - destruct l as [|c r]; [now left|]. simpl. destruct (p c) eqn:E.
    + intros Hd. exfalso.
      destruct (dropWhile_suffix p r) as [d Hr].
      assert (Hlen : length (Str.dropWhile p r) = S (length r)) by now rewrite Hd.
      rewrite Hr in Hlen at 2. rewrite length_app in Hlen. lia.
    + intros _. right. now exists c, r.
  - intros [->|[c [r [-> E]]]]; simpl; [reflexivity | now rewrite E].
Qed.

Lemma trim_trimChars (s : string) : Str.trim s = Str.ofChars (trimChars (Str.chars s)).
Proof. reflexivity. Qed.

Lemma trimChars_trimmed (l : list ascii) : trimmed (trimChars l).
Proof.
  unfold trimmed, trimChars. split.
  - set (d := Str.dropWhile Str.isWhiteSpace l).
    destruct (dropWhile_suffix Str.isWhiteSpace (rev d)) as [p Hp].
    set (e := Str.dropWhile Str.isWhiteSpace (rev d)) in *.
    apply dropWhile_fixed.
    destruct (rev e) as [|c r] eqn:Ee; [now left|]. right. exists c, r. split; [reflexivity|].
    assert (Hd : d = (rev e ++ rev p)%list).
    { rewrite <- rev_app_distr, <- Hp. now rewrite rev_involutive. }
    rewrite Ee in Hd. simpl in Hd.
    assert (Hfix : Str.dropWhile Str.isWhiteSpace d = d) by apply dropWhile_idempotent.
    apply dropWhile_fixed in Hfix. destruct Hfix as [Hnil|[c' [r' [Hc E]]]].
    + rewrite Hnil in Hd. discriminate.
    + rewrite Hd in Hc. inversion Hc; subst. exact E.
  - rewrite rev_involutive. apply dropWhile_idempotent.
Qed.

Lemma trimChars_of_trimmed (l : list ascii) : trimmed l -> trimChars l = l.
Proof.
  intros [Hl Hr]. unfold trimChars. rewrite Hl, Hr. apply rev_involutive.
Qed.

Lemma trimChars_map_lower (l : list ascii) :
  trimChars (map Str.lowerChar l) = map Str.lowerChar (trimChars l).
Proof.
  unfold trimChars.
  rewrite (dropWhile_map _ _ _ isWhiteSpace_lowerChar), <- map_rev.
  rewrite (dropWhile_map _ _ _ isWhiteSpace_lowerChar), <- map_rev.
  reflexivity.
Qed.

Lemma collapseRuns_idempotent (l : list ascii) :
  forall inRun, Str.collapseRuns inRun (Str.collapseRuns inRun l) = Str.collapseRuns inRun l.
Proof.
  induction l as [|c l IH]; intros inRun; simpl; [reflexivity|].
  destruct (Str.isWhiteSpace c) eqn:E.
  - destruct inRun; [apply IH|].
    simpl. now rewrite IH.
  - simpl. rewrite E. now rewrite IH.
Qed.

Lemma collapseRuns_last (c : ascii) (l : list ascii) :
  Str.isWhiteSpace c = false ->
  forall inRun, Str.collapseRuns inRun (l ++ [c]) = (Str.collapseRuns inRun l ++ [c])%list.
Proof.
  intros E. induction l as [|a l IH]; intros inRun; simpl.
  - now rewrite E.
  - destruct (Str.isWhiteSpace a); [destruct inRun|]; simpl; now rewrite IH.
Qed.

Lemma collapseRuns_trimmed (l : list ascii) :
  trimmed l -> trimmed (Str.collapseRuns false l).
Proof.
  intros [Hl Hr]. split.
  - apply dropWhile_fixed in Hl. destruct Hl as [->|[c [r [-> E]]]]; [reflexivity|].
    simpl. rewrite E. simpl. now rewrite E.
  - apply dropWhile_fixed in Hr. destruct Hr as [Hnil|[c [r [Hrev E]]]].
    + assert (l = []) as -> by (now apply (f_equal (@rev ascii)) in Hnil;
                                 rewrite rev_involutive in Hnil).
      reflexivity.
    + assert (Hlast : l = (rev r ++ [c])%list).
      { apply (f_equal (@rev ascii)) in Hrev. now rewrite rev_involutive in Hrev. }
      rewrite Hlast, (collapseRuns_last c _ E), rev_app_distr. simpl. now rewrite E.
Qed.

Lemma filter_all {A : Type} (p : A -> bool) (l : list A) :
  forallb p l = true -> filter p l = l.
Proof.
  induction l as [|a l IH]; simpl; [reflexivity|].
  intros Hall. apply andb_true_iff in Hall. destruct Hall as [Ha Hl].
  rewrite Ha. now rewrite IH.
Qed.

Lemma forallb_filter {A : Type} (p : A -> bool) (l : list A) : forallb p (filter p l) = true.
Proof.
  induction l as [|a l IH]; simpl; [reflexivity|].
  destruct (p a) eqn:E; simpl; [now rewrite E|assumption].
Qed.

Lemma forallb_firstn {A : Type} (p : A -> bool) (l : list A) :
  forallb p l = true -> forall n, forallb p (firstn n l) = true.
Proof.
  induction l as [|a l IH]; intros Hall [|n]; simpl; try reflexivity.
  simpl in Hall. apply andb_true_iff in Hall. destruct Hall as [Ha Hl].
  rewrite Ha. now apply IH.
Qed.

Lemma forallb_skipn {A : Type} (p : A -> bool) (l : list A) :
  forallb p l = true -> forall n, forallb p (skipn n l) = true.
Proof.
  induction l as [|a l IH]; intros Hall [|n]; simpl; try reflexivity; try assumption.
  simpl in Hall. apply andb_true_iff in Hall. destruct Hall as [Ha Hl]. now apply IH.
Qed.

End StringFacts.

(** ** Transformer: what the formatters keep *)

Section TransformerLaws.
Context {H : Host}.

Lemma formatPhone_string (s : string) :
  formatPhone (VStr s)
  = Normal (VStr
      (if String.eqb s "" then s
       else if String.length (Str.stripNonDigits s) =? 10
            then tenDigitFormat (Str.stripNonDigits s)
            else if (String.length (Str.stripNonDigits s) =? 11)
                    && Str.firstIs (Str.stripNonDigits s) "1"
                 then elevenDigitFormat (Str.stripNonDigits s)
                 else s)).
Proof.
  unfold formatPhone. simpl truthy. rewrite negb_involutive.
  destruct (String.eqb s ""); [reflexivity|].
  destruct (_ =? 10); [reflexivity|]. destruct (_ && _); reflexivity.
Qed.

Lemma stripNonDigits_digits (s : string) :
  forallb Str.isDigit (Str.chars (Str.stripNonDigits s)) = true.
Proof. unfold Str.stripNonDigits. rewrite chars_ofChars. apply forallb_filter. Qed.

Lemma stripNonDigits_of_digits (s : string) :
  forallb Str.isDigit (Str.chars s) = true -> Str.stripNonDigits s = s.
Proof.
  intros Hd. unfold Str.stripNonDigits. rewrite (filter_all _ _ Hd). apply ofChars_chars.
Qed.

Lemma stripNonDigits_append (a b : string) :
  Str.stripNonDigits (a ++ b)
  = (Str.stripNonDigits a ++ Str.stripNonDigits b)%string.
Proof.
  apply chars_injective. unfold Str.stripNonDigits.
  rewrite !chars_append, !chars_ofChars. apply filter_app.
Qed.

Lemma digits_substring (s : string) (n m : nat) :
  forallb Str.isDigit (Str.chars s) = true ->
  forallb Str.isDigit (Str.chars (substring n m s)) = true.
Proof.
  intros Hd. rewrite chars_substring. apply forallb_firstn. now apply forallb_skipn.
Qed.

(** Three consecutive slices that reach the end make up the string *)
Lemma slices_make_up (s : string) (i j : nat) :
  i <= j -> j <= String.length s ->
  (substring 0 i s ++ substring i (j - i) s ++ substring j (String.length s - j) s)%string = s.
Proof.
  intros Hij Hj. apply chars_injective.
  rewrite !chars_append, !chars_substring, <- chars_length. simpl skipn.
  rewrite (firstn_all2 (n := length (Str.chars s) - j))
    by (rewrite length_skipn; lia).
  replace j with ((j - i) + i) at 2 by lia.
  rewrite <- skipn_skipn, firstn_skipn. apply firstn_skipn.
Qed.

Lemma stripNonDigits_tenDigitFormat (cleaned : string) :
  forallb Str.isDigit (Str.chars cleaned) = true ->
  6 <= String.length cleaned ->
  Str.stripNonDigits (tenDigitFormat cleaned) = cleaned.
Proof.
  intros Hd Hlen. unfold tenDigitFormat, Str.slice, Str.sliceFrom.
  rewrite !stripNonDigits_append.
  rewrite !(stripNonDigits_of_digits (substring _ _ _)) by now apply digits_substring.
  change (Str.stripNonDigits "(") with "". change (Str.stripNonDigits ") ") with "".
  change (Str.stripNonDigits "-") with "". simpl append.
  change (3 - 0) with 3. change 3 with (6 - 3) at 3.
  apply (slices_make_up cleaned 3 6); lia.
Qed.

Lemma stripNonDigits_elevenDigitFormat (cleaned : string) :
  forallb Str.isDigit (Str.chars cleaned) = true ->
  7 <= String.length cleaned ->
  Str.firstIs cleaned "1" = true ->
  Str.stripNonDigits (elevenDigitFormat cleaned) = cleaned.
Proof.
  intros Hd Hlen Hone. unfold elevenDigitFormat, Str.slice, Str.sliceFrom.
  rewrite !stripNonDigits_append.
  rewrite !(stripNonDigits_of_digits (substring _ _ _)) by now apply digits_substring.
  change (Str.stripNonDigits "+1 (") with "1". change (Str.stripNonDigits ") ") with "".
  change (Str.stripNonDigits "-") with "". simpl append.
  destruct cleaned as [|c rest]; [discriminate|].
  unfold Str.firstIs in Hone. simpl in Hone.
  destruct (Ascii.eqb_spec c "1"%char) as [->|]; [|discriminate].
  f_equal. simpl in Hlen. simpl substring. simpl String.length.
  change (4 - 1) with 3. change (7 - 4) with (6 - 3).
  change (S (String.length rest) - 7) with (String.length rest - 6).
  apply (slices_make_up rest 3 6); lia.
Qed.

(** X1. formatPhone keeps the digits of a string and is idempotent: the
    result of formatting has the digits of the input, and formatting it
    again changes nothing. *)
Theorem formatPhone_keeps_digits (s : string) :
  exists out,
    formatPhone (VStr s) = Normal (VStr out)
    /\ Str.stripNonDigits out = Str.stripNonDigits s
    /\ formatPhone (VStr out) = Normal (VStr out).
Proof.
  pose proof (stripNonDigits_digits s) as Hd.
  rewrite (formatPhone_string s).
  destruct (String.eqb_spec s "") as [->|Hs].
  - exists "". repeat split; reflexivity.
  - destruct (Nat.eqb_spec (String.length (Str.stripNonDigits s)) 10) as [E10|N10].
    + exists (tenDigitFormat (Str.stripNonDigits s)).
      assert (Hstrip := stripNonDigits_tenDigitFormat _ Hd ltac:(lia)).
      split; [reflexivity|]. split; [exact Hstrip|].
      rewrite formatPhone_string, Hstrip, E10. reflexivity.
    + destruct (Nat.eqb_spec (String.length (Str.stripNonDigits s)) 11) as [E11|N11];
        [destruct (Str.firstIs (Str.stripNonDigits s) "1") eqn:Eone|]; cbn [andb].
      * exists (elevenDigitFormat (Str.stripNonDigits s)).
        assert (Hstrip := stripNonDigits_elevenDigitFormat _ Hd ltac:(lia) Eone).
        split; [reflexivity|]. split; [exact Hstrip|].
        rewrite formatPhone_string, Hstrip, E11, Eone. reflexivity.
      * exists s. split; [reflexivity|]. split; [reflexivity|].
        rewrite formatPhone_string.
        destruct (String.eqb s ""); [reflexivity|].
        destruct (Nat.eqb_spec (String.length (Str.stripNonDigits s)) 10); [contradiction|].
        destruct (Nat.eqb_spec (String.length (Str.stripNonDigits s)) 11); [|contradiction].
        rewrite Eone. reflexivity.
      * exists s. split; [reflexivity|]. split; [reflexivity|].
        rewrite formatPhone_string.
        destruct (String.eqb s ""); [reflexivity|].
        destruct (Nat.eqb_spec (String.length (Str.stripNonDigits s)) 10); [contradiction|].
        destruct (Nat.eqb_spec (String.length (Str.stripNonDigits s)) 11); [contradiction|].
        reflexivity.
Qed.

(** X2. normalizeEmail is idempotent on strings, and its result is in lower
    case without white space at either end. *)
Theorem normalizeEmail_idempotent (s : string) :
  exists out,
    normalizeEmail (VStr s) = Normal (VStr out)
    /\ normalizeEmail (VStr out) = Normal (VStr out)
    /\ Str.toLowerCase out = out
    /\ Str.trim out = out.
Proof.
  assert (Hlower : Str.toLowerCase (Str.trim (Str.toLowerCase s))
                   = Str.trim (Str.toLowerCase s)).
  { unfold Str.toLowerCase at 1. rewrite !trim_trimChars.
    unfold Str.toLowerCase. rewrite !chars_ofChars.
    now rewrite <- trimChars_map_lower, map_map, (map_ext _ _ lowerChar_idempotent). }
  assert (Htrim : Str.trim (Str.trim (Str.toLowerCase s)) = Str.trim (Str.toLowerCase s)).
  { rewrite !trim_trimChars, chars_ofChars.
    now rewrite (trimChars_of_trimmed _ (trimChars_trimmed _)). }
  unfold normalizeEmail. simpl truthy. rewrite negb_involutive.
  destruct (String.eqb_spec s "") as [->|Hs].
  - exists "". repeat split; reflexivity.
  - exists (Str.trim (Str.toLowerCase s)). split; [reflexivity|].
    split; [|split; assumption].
    simpl truthy. rewrite negb_involutive.
    destruct (String.eqb_spec (Str.trim (Str.toLowerCase s)) "") as [E|_].
    + reflexivity.
    + now rewrite Hlower, Htrim.
Qed.

(** X3. normalizeName is idempotent on strings, and its result has no white
    space at either end. *)
Theorem normalizeName_idempotent (s : string) :
  exists out,
    normalizeName (VStr s) = Normal (VStr out)
    /\ normalizeName (VStr out) = Normal (VStr out)
    /\ Str.trim out = out
    /\ Str.collapseWhiteSpace out = out.
Proof.
  set (tidy := Str.collapseRuns false (trimChars (Str.chars s))).
  assert (Hout : Str.collapseWhiteSpace (Str.trim s) = Str.ofChars tidy).
  { unfold Str.collapseWhiteSpace. now rewrite trim_trimChars, chars_ofChars. }
  assert (Htidy : trimmed tidy) by apply collapseRuns_trimmed, trimChars_trimmed.
  assert (Htrim : Str.trim (Str.ofChars tidy) = Str.ofChars tidy).
  { now rewrite trim_trimChars, chars_ofChars, (trimChars_of_trimmed _ Htidy). }
  assert (Hcollapse : Str.collapseWhiteSpace (Str.ofChars tidy) = Str.ofChars tidy).
  { unfold Str.collapseWhiteSpace. rewrite chars_ofChars. unfold tidy.
    now rewrite collapseRuns_idempotent. }
  unfold normalizeName. simpl truthy. rewrite negb_involutive.
  destruct (String.eqb_spec s "") as [->|Hs].
  - exists "". repeat split; reflexivity.
  - exists (Str.ofChars tidy). rewrite Hout. split; [reflexivity|].
    split; [|split; assumption].
    simpl truthy. rewrite negb_involutive.
    destruct (String.eqb (Str.ofChars tidy) ""); [reflexivity|].
    now rewrite Htrim, Hcollapse.
Qed.


End TransformerLaws.

(** ** Conflict resolver: strategies, fallback, heuristics *)

Section ResolverStrategies.
Context {H : Host}.

Lemma dataTypeRule_source_wins (dataType : string) (m : rule) :
  dataTypeRule dataType "source_wins" = Some m -> m = source_wins.
Proof.
  unfold dataTypeRule.
  destruct (if String.eqb dataType "String" then _ else _); [|discriminate].
  simpl. now inversion 1.
Qed.

Lemma dataTypeRule_target_wins (dataType : string) (m : rule) :
  dataTypeRule dataType "target_wins" = Some m -> m = target_wins.
Proof.
  unfold dataTypeRule.
  destruct (if String.eqb dataType "String" then _ else _); [|discriminate].
  simpl. now inversion 1.
Qed.

Lemma source_wins_resolution (c : Conflict) :
  resolvedValue (resolveIndividualConflict c "source-wins") = sourceValue c
  /\ resolved (resolveIndividualConflict c "source-wins") = true.
Proof.
  unfold resolveIndividualConflict, resolveAttempt.
  change (String.eqb "source-wins" "ai-resolve") with false.
  change (Str.replaceFirst "-" "_" "source-wins") with "source_wins".
  cbv iota.
  destruct (dataTypeRule _ "source_wins") as [m|] eqn:E.
  - apply dataTypeRule_source_wins in E. subst m. split; reflexivity.
  - change (dataTypeRule "String" "source_wins") with (Some source_wins). split; reflexivity.
Qed.

Lemma target_wins_resolution (c : Conflict) :
  resolvedValue (resolveIndividualConflict c "target-wins") = targetValue c
  /\ resolved (resolveIndividualConflict c "target-wins") = true.
Proof.
  unfold resolveIndividualConflict, resolveAttempt.
  change (String.eqb "target-wins" "ai-resolve") with false.
  change (Str.replaceFirst "-" "_" "target-wins") with "target_wins".
  cbv iota.
  destruct (dataTypeRule _ "target_wins") as [m|] eqn:E.
  - apply dataTypeRule_target_wins in E. subst m. split; reflexivity.
  - change (dataTypeRule "String" "target_wins") with (Some target_wins). split; reflexivity.
Qed.

Lemma filter_all_true {A : Type} (p : A -> bool) (l : list A) :
  (forall a, In a l -> p a = true) -> filter p l = l.
Proof.
  intros Hall. apply filter_all. apply forallb_forall. exact Hall.
Qed.

Lemma filter_all_false {A : Type} (p : A -> bool) (l : list A) :
  (forall a, In a l -> p a = false) -> filter p l = [].
Proof.
  induction l as [|a l IH]; intros Hall; simpl; [reflexivity|].
  rewrite (Hall a (or_introl eq_refl)). apply IH. intros b Hb. apply Hall. now right.
Qed.

(** X5. Under source-wins every conflict resolves to its source value, and
    under target-wins to its target value, whatever the data type; every
    conflict counts as resolved. *)
Theorem fixed_side_strategies_select_their_side (conflicts : list Conflict) :
  map resolvedValue (resolutions (resolveConflicts conflicts (Some "source-wins")))
    = map sourceValue conflicts
  /\ map resolvedValue (resolutions (resolveConflicts conflicts (Some "target-wins")))
    = map targetValue conflicts
  /\ resolvedConflicts (resolveConflicts conflicts (Some "source-wins")) = length conflicts
  /\ resolvedConflicts (resolveConflicts conflicts (Some "target-wins")) = length conflicts.
Proof.
  unfold resolveConflicts. cbn [resolutions resolvedConflicts].
  repeat split.
  - rewrite map_map. apply map_ext. intros c. apply source_wins_resolution.
  - rewrite map_map. apply map_ext. intros c. apply target_wins_resolution.
  - rewrite filter_all_true, length_map; [reflexivity|].
    intros r Hr. apply in_map_iff in Hr. destruct Hr as [c [<- _]].
    apply source_wins_resolution.
  - rewrite filter_all_true, length_map; [reflexivity|].
    intros r Hr. apply in_map_iff in Hr. destruct Hr as [c [<- _]].
    apply target_wins_resolution.
Qed.

Lemma dataTypeRule_unknown_key (dataType key : string) :
  ~ In key ruleKeys -> dataTypeRule dataType key = None.
Proof.
  intros Hkey. unfold dataTypeRule.
  destruct (if String.eqb dataType "String" then _ else _); [|reflexivity].
  repeat match goal with
         | |- context [String.eqb key ?k] =>
             destruct (String.eqb_spec key k) as [->|_];
             [exfalso; apply Hkey; simpl; tauto|]
         end.
  reflexivity.
Qed.

(** X6. A strategy that is not ai-resolve and names no rule of the table
    makes every resolution the fallback: not resolved, the source value as
    resolved value, strategy "fallback", confidence 0.5; the batch counts no
    resolved conflict.  Names inherited from Object.prototype are excluded,
    as the strategy and as the data type of a conflict. *)
Theorem unknown_strategy_falls_back (conflicts : list Conflict) (strategy : string) :
  strategy <> "ai-resolve" ->
  ~ In (Str.replaceFirst "-" "_" strategy) ruleKeys ->
  ~ In (Str.replaceFirst "-" "_" strategy) objectPrototypeNames ->
  (forall c d, In c conflicts -> dataType c = Some d -> ~ In d objectPrototypeNames) ->
  resolvedConflicts (resolveConflicts conflicts (Some strategy)) = 0
  /\ length (resolutions (resolveConflicts conflicts (Some strategy))) = length conflicts
  /\ forall c, In c conflicts ->
       let r := resolveIndividualConflict c strategy in
       In r (resolutions (resolveConflicts conflicts (Some strategy)))
       /\ resolved r = false
       /\ resolvedValue r = sourceValue c
       /\ res_strategy r = "fallback"
       /\ confidence r = num_lit 0.5.
Proof.
  intros Hai Hkey _ _.
  assert (Hone : forall c,
    resolveAttempt c (match dataType c with Some d => d | None => "String" end) strategy
    = Throw (TypeError "resolutionMethod is not a function")).
  { intros c. unfold resolveAttempt.
    destruct (String.eqb_spec strategy "ai-resolve"); [contradiction|].
    now rewrite !(dataTypeRule_unknown_key _ _ Hkey). }
  assert (Hres : forall c, resolved (resolveIndividualConflict c strategy) = false).
  { intros c. unfold resolveIndividualConflict. now rewrite Hone. }
  unfold resolveConflicts. cbn [resolutions resolvedConflicts].
  split; [|split].
  - rewrite filter_all_false; [reflexivity|].
    intros r Hr. apply in_map_iff in Hr. destruct Hr as [c [<- _]]. apply Hres.
  - apply length_map.
  - intros c Hc. cbv zeta. split; [apply in_map_iff; exists c; now split|].
    unfold resolveIndividualConflict. rewrite Hone. simpl. repeat split.
Qed.

(** X7. Under ai-resolve the resolved value of a conflict on a high-priority
    field is one of the two sides, never a merged or new value. *)
Theorem high_priority_resolution_selects_a_side (c : Conflict) :
  fieldPriority (field c) = Some "high" ->
  resolvedValue (resolveIndividualConflict c "ai-resolve") = sourceValue c
  \/ resolvedValue (resolveIndividualConflict c "ai-resolve") = targetValue c.
Proof.
  intros Hprio. unfold resolveIndividualConflict, resolveAttempt.
  change (String.eqb "ai-resolve" "ai-resolve") with true. cbv iota.
  rewrite Hprio. change (String.eqb "high" "high") with true. cbv iota.
  destruct (resolveHighPriorityField _ _ _ _) as [v|e] eqn:E; simpl.
  - apply resolveHighPriorityField_selects in E. exact E.
  - now left.
Qed.

(** X8. Under ai-resolve a conflict on the field Email between two strings
    resolves to the side that is a valid address when only one is, to the
    longer one when both are (the source on equal lengths), and to the
    source when neither is. *)
Theorem email_conflict_prefers_valid_address (c : Conflict) (s t : string) :
  field c = "Email" -> sourceValue c = VStr s -> targetValue c = VStr t ->
  resolved (resolveIndividualConflict c "ai-resolve") = true
  /\ resolvedValue (resolveIndividualConflict c "ai-resolve")
     = match validateEmail (VStr s), validateEmail (VStr t) with
       | true, false => VStr s
       | false, true => VStr t
       | true, true => if String.length t <=? String.length s then VStr s else VStr t
       | false, false => VStr s
       end.
Proof.
  intros Hf Hs Ht. unfold resolveIndividualConflict, resolveAttempt.
  change (String.eqb "ai-resolve" "ai-resolve") with true. cbv iota.
  rewrite Hf. change (fieldPriority "Email") with (Some "high").
  change (String.eqb "high" "high") with true. cbv iota.
  unfold resolveHighPriorityField. rewrite Hs, Ht.
  change (Str.includes "Email" "Email") with true.
  change (Str.includes "Email" "Phone") with false.
  change (Str.includes "Email" "Name") with false. cbv iota.
  destruct (validateEmail (VStr s)), (validateEmail (VStr t)); simpl; split; reflexivity.
Qed.

Lemma hasInnerDot_shape (l : list ascii) :
  hasInnerDot l = true <->
  exists before lastPart, l = (before ++ "."%char :: lastPart)%list /\ lastPart <> [].
Proof.
  induction l as [|c r IH]; simpl.
  - split; [discriminate|]. intros [[|a b] [p [E _]]]; discriminate.
  - split.
    + intros Hdot. apply orb_true_iff in Hdot. destruct Hdot as [Hhere|Hlater].
      * apply andb_true_iff in Hhere. destruct Hhere as [Hc Hr].
        apply Ascii.eqb_eq in Hc. subst c. exists [], r. split; [reflexivity|].
        destruct r; [discriminate|discriminate].
      * apply IH in Hlater. destruct Hlater as [b [p [-> Hp]]].
        exists (c :: b), p. now split.
    + intros [[|a b] [p [E Hp]]]; simpl in E; inversion E; subst.
      * rewrite Ascii.eqb_refl. destruct p; [contradiction|reflexivity].
      * apply orb_true_iff. right. apply IH. now exists b, p.
Qed.

Lemma emailFrom_shape (l : list ascii) :
  forall seen,
    emailFrom seen l = true <->
    exists localPart domain,
      l = (localPart ++ "@"%char :: domain)%list
      /\ forallb emailChar localPart = true
      /\ (seen = true \/ localPart <> [])
      /\ emailDomain domain = true.
Proof.
  induction l as [|c r IH]; intros seen; simpl.
  - split; [discriminate|]. intros [[|a b] [d [E _]]]; discriminate.
  - destruct (Ascii.eqb_spec c "@"%char) as [->|Hat].
    + split.
      * intros Hd. apply andb_true_iff in Hd. destruct Hd as [-> Hd].
        exists [], r. repeat split; auto.
      * intros [[|a b] [d [E [Hall [Hseen Hd]]]]]; simpl in E; inversion E; subst.
        -- destruct Hseen as [->|Hne]; [exact Hd | contradiction].
        -- simpl in Hall. discriminate.
    + destruct (Str.isWhiteSpace c) eqn:Ews.
      * split; [discriminate|].
        intros [[|a b] [d [E [Hall _]]]]; simpl in E; inversion E; subst.
        -- contradiction.
        -- simpl in Hall. unfold emailChar in Hall at 1. rewrite Ews in Hall. discriminate.
      * rewrite IH. split.
        -- intros [b [d [-> [Hall [_ Hd]]]]]. exists (c :: b), d.
           repeat split; auto.
           ++ simpl. unfold emailChar at 1. rewrite Ews.
              destruct (Ascii.eqb_spec c "@"%char); [contradiction|]. exact Hall.
           ++ right. discriminate.
        -- intros [[|a b] [d [E [Hall [_ Hd]]]]]; simpl in E; inversion E; subst.
           ++ contradiction.
           ++ exists b, d. simpl in Hall. apply andb_true_iff in Hall.
              repeat split; try tauto.
Qed.

(** X9. validateEmail accepts exactly the strings of the shape
    local@domain.last, the three parts non-empty and free of white space
    and of [@]. *)
Theorem validateEmail_accepts_the_regex_language (s : string) :
  validateEmail (VStr s) = true <-> emailShape (Str.chars s).
Proof.
  assert (Htest : validateEmail (VStr s) = emailRegex_test s).
  { unfold validateEmail. simpl truthy. rewrite negb_involutive.
    destruct (String.eqb_spec s "") as [->|]; reflexivity. }
  rewrite Htest. unfold emailRegex_test, emailShape. rewrite emailFrom_shape.
  split.
  - intros [loc [d [E [Hloc [Hne Hd]]]]].
    destruct Hne as [Hne|Hne]; [discriminate|].
    unfold emailDomain in Hd. apply andb_true_iff in Hd. destruct Hd as [Hall Hdot].
    destruct d as [|c r]; [discriminate|].
    apply hasInnerDot_shape in Hdot. destruct Hdot as [b [p [-> Hp]]].
    exists loc, (c :: b), p. rewrite E.
    change (c :: b ++ "."%char :: p)%list with ((c :: b) ++ "."%char :: p)%list in Hall.
    rewrite forallb_app in Hall. apply andb_true_iff in Hall. destruct Hall as [Hdom Hlast].
    change (forallb emailChar ("."%char :: p)) with (forallb emailChar p) in Hlast.
    repeat split; try assumption; discriminate.
  - intros [loc [d [p [E [Hl [Hdne [Hp [Hloc [Hdom Hlast]]]]]]]]].
    exists loc, (d ++ "."%char :: p)%list. repeat split; auto.
    unfold emailDomain. apply andb_true_iff. split.
    + rewrite forallb_app.
      change (forallb emailChar ("."%char :: p)) with (forallb emailChar p).
      now rewrite Hdom, Hlast.
    + destruct d as [|c b]; [contradiction|]. simpl.
      apply hasInnerDot_shape. now exists b, p.
Qed.

End ResolverStrategies.

(** ** Field mapper: keys, untransformed values; conflicts of the pipeline *)

Section MapperShape.
Context {H : Host}.

Lemma obj_keys_set_present (o : jsobject) (k : string) (v : value) :
  In k (obj_keys o) -> obj_keys (obj_set o k v) = obj_keys o.
Proof.
  unfold obj_keys. induction o as [|[k0 v0] o IH]; simpl; [contradiction|].
  destruct (String.eqb_spec k0 k) as [->|Hne]; simpl; [reflexivity|].
  intros [Heq|Hin]; [contradiction|]. now rewrite IH.
Qed.

Lemma obj_keys_set_absent (o : jsobject) (k : string) (v : value) :
  ~ In k (obj_keys o) -> obj_keys (obj_set o k v) = (obj_keys o ++ [k])%list.
Proof.
  unfold obj_keys. induction o as [|[k0 v0] o IH]; simpl; [reflexivity|].
  intros Hno. destruct (String.eqb_spec k0 k) as [->|Hne]; simpl.
  - exfalso. apply Hno. now left.
  - rewrite IH; [reflexivity|]. intros Hin. apply Hno. now right.
Qed.

Lemma obj_set_NoDup (o : jsobject) (k : string) (v : value) :
  NoDup (obj_keys o) -> NoDup (obj_keys (obj_set o k v)).
Proof.
  intros Hnd. destruct (in_dec string_dec k (obj_keys o)) as [Hin|Hout].
  - now rewrite obj_keys_set_present.
  - rewrite obj_keys_set_absent by assumption.
    apply NoDup_app; [exact Hnd | repeat constructor; auto | ].
    intros a Ha [<-|[]]. contradiction.
Qed.

Lemma writeMappings_keys (sourceRecord : jsobject) (mappings : list FieldMapping) :
  forall mappedRecord,
    NoDup (obj_keys mappedRecord) ->
    NoDup (obj_keys (fold_left (writeMapping sourceRecord) mappings mappedRecord))
    /\ forall k,
         In k (obj_keys (fold_left (writeMapping sourceRecord) mappings mappedRecord))
         <-> In k (obj_keys mappedRecord) \/ exists m, In m mappings /\ targetField m = k.
Proof.
  induction mappings as [|m ms IH]; intros o Hnd; simpl.
  - split; [exact Hnd|]. intros k. split; [now left|].
    intros [Hk|[m [[] _]]]. exact Hk.
  - destruct (IH (writeMapping sourceRecord o m)) as [Hnd' Hkeys].
    { unfold writeMapping. now apply obj_set_NoDup. }
    split; [exact Hnd'|]. intros k. rewrite Hkeys. unfold writeMapping.
    rewrite obj_keys_set. split.
    + intros [[->|Hk]|[m' [Hm' E]]].
      * right. exists m. split; [now left | reflexivity].
      * now left.
      * right. exists m'. split; [now right | exact E].
    + intros [Hk|[m' [[<-|Hm'] E]]].
      * left. now right.
      * left. left. now symmetry.
      * right. now exists m'.
Qed.

(** X10. The mapped record of an object has exactly the target fields of the
    mappings as its properties, each once: fields without a mapping are
    dropped, and several mappings to one target leave one property.  The
    target field [__proto__], which an assignment does not create, is
    excluded. *)
Theorem mapped_record_has_the_target_fields (sourceRecord : jsobject)
    (mappings : list FieldMapping) :
  ~ In "__proto__" (map targetField mappings) ->
  exists mapped,
    applyFieldMappings (Some sourceRecord) mappings = Normal mapped
    /\ NoDup (obj_keys mapped)
    /\ forall k, In k (obj_keys mapped) <-> In k (map targetField mappings).
Proof.
  intros _.
  rewrite applyFieldMappings_object. eexists. split; [reflexivity|].
  destruct (writeMappings_keys sourceRecord mappings [] (NoDup_nil _)) as [Hnd Hkeys].
  split; [exact Hnd|]. intros k. rewrite Hkeys, in_map_iff. simpl.
  split.
  - intros [[]|[m [Hm E]]]. now exists m.
  - intros [m [E Hm]]. right. now exists m.
Qed.

Lemma mappedValue_falsy (sourceRecord : jsobject) (mapping : FieldMapping) :
  truthy (obj_get sourceRecord (sourceField mapping)) = false ->
  mappedValue sourceRecord mapping = obj_get sourceRecord (sourceField mapping).
Proof.
  intros Hf. unfold mappedValue.
  destruct (transformationRule mapping) as [r|]; [|reflexivity].
  destruct (_ && _); [|reflexivity].
  unfold applyTransformation. now rewrite Hf.
Qed.

(** X11. A falsy source value (a missing field, null, the empty string, zero,
    false) reaches the target field unchanged, whatever the rule of the
    mapping: the transformer is not applied to it.  No mapping of the list
    has the target field [__proto__]. *)
Theorem falsy_source_value_is_copied (sourceRecord : jsobject)
    (before after : list FieldMapping) (mapping : FieldMapping) :
  truthy (obj_get sourceRecord (sourceField mapping)) = false ->
  (forall m, In m after -> targetField m <> targetField mapping) ->
  ~ In "__proto__" (map targetField (before ++ mapping :: after)) ->
  exists mapped,
    applyFieldMappings (Some sourceRecord) (before ++ mapping :: after) = Normal mapped
    /\ obj_get mapped (targetField mapping) = obj_get sourceRecord (sourceField mapping).
Proof.
  intros Hf Hafter _. rewrite applyFieldMappings_object. eexists. split; [reflexivity|].
  rewrite writeMappings_last by assumption. now apply mappedValue_falsy.
Qed.

Lemma transformer_unlabelled (rule : string) :
  ~ In rule transformationRules -> transformer rule = directMapping.
Proof.
  intros Hno. unfold transformer.
  repeat match goal with
         | |- context [String.eqb rule ?k] =>
             destruct (String.eqb_spec rule k) as [->|_];
             [exfalso; apply Hno; simpl; tauto|]
         end.
  reflexivity.
Qed.

(** X12. A mapping without a rule, with the rule directMapping(value) or with
    a rule that is no case label of applyTransformation copies the source
    value to the target field.  No mapping of the list has the target field
    [__proto__]. *)
Theorem unlabelled_rule_copies_the_value (sourceRecord : jsobject)
    (before after : list FieldMapping) (mapping : FieldMapping) :
  (forall r, transformationRule mapping = Some r ->
     r = "directMapping(value)" \/ ~ In r transformationRules) ->
  (forall m, In m after -> targetField m <> targetField mapping) ->
  ~ In "__proto__" (map targetField (before ++ mapping :: after)) ->
  exists mapped,
    applyFieldMappings (Some sourceRecord) (before ++ mapping :: after) = Normal mapped
    /\ obj_get mapped (targetField mapping) = obj_get sourceRecord (sourceField mapping).
Proof.
  intros Hrule Hafter _. rewrite applyFieldMappings_object. eexists. split; [reflexivity|].
  rewrite writeMappings_last by assumption. unfold mappedValue.
  destruct (transformationRule mapping) as [r|]; [|reflexivity].
  destruct (_ && _); [|reflexivity].
  assert (Hdirect : transformer r = directMapping).
  { destruct (Hrule r eq_refl) as [->|Hno]; [reflexivity | now apply transformer_unlabelled]. }
  unfold applyTransformation. rewrite Hdirect. unfold directMapping.
  now destruct (negb _).
Qed.

Lemma getFieldDataType_known (fieldName : string) :
  knownDataType (Some (getFieldDataType fieldName)) = true.
Proof.
  unfold getFieldDataType.
  repeat match goal with |- context [if ?b then _ else _] => destruct b end; reflexivity.
Qed.

Lemma truthy_non_null (v : value) : truthy v = true -> isNullish v = false.
Proof. destruct v; simpl; congruence. Qed.

Lemma flat_map_at_most_one {A B : Type} (f : A -> list B) (l : list A) :
  (forall a, length (f a) <= 1) -> length (flat_map f l) <= length l.
Proof.
  intros Hf. induction l as [|a l IH]; simpl; [lia|].
  rewrite length_app. specialize (Hf a). lia.
Qed.

Lemma detectConflicts_length (mappedRecord : jsobject) (roll : bool) :
  length (detectConflicts mappedRecord roll) <= 2.
Proof.
  unfold detectConflicts. destruct roll; [|simpl; lia].
  etransitivity.
  - apply flat_map_at_most_one. intros f. destruct (truthy _); simpl; lia.
  - rewrite length_firstn. lia.
Qed.

Lemma detectConflicts_entries (mappedRecord : jsobject) (roll : bool) (c : Conflict) :
  In c (detectConflicts mappedRecord roll) ->
  In (field c) (firstn 2 (obj_keys mappedRecord))
  /\ sourceValue c = obj_get mappedRecord (field c)
  /\ truthy (sourceValue c) = true
  /\ targetValue c = VStr ("existing_" ++ ToString (sourceValue c))
  /\ knownDataType (dataType c) = true.
Proof.
  unfold detectConflicts. intros Hc. destruct roll; [|contradiction].
  apply in_flat_map in Hc. destruct Hc as [f [Hf Hc]].
  destruct (truthy (obj_get mappedRecord f)) eqn:Et; [|contradiction].
  destruct Hc as [<-|[]]. simpl. repeat split; auto.
  apply getFieldDataType_known.
Qed.

(** X13. detectConflicts reports at most two conflicts, and none without the
    roll; each is on one of the first two properties of the mapped record,
    has the property's value, which is truthy, as source value, the string
    "existing_" followed by that value as target value, and a data type among
    String, Number, Date, Boolean. *)
Theorem detectConflicts_shape (mappedRecord : jsobject) (roll : bool) :
  length (detectConflicts mappedRecord roll) <= 2
  /\ (roll = false -> detectConflicts mappedRecord roll = [])
  /\ forall c, In c (detectConflicts mappedRecord roll) ->
       In (field c) (firstn 2 (obj_keys mappedRecord))
       /\ sourceValue c = obj_get mappedRecord (field c)
       /\ truthy (sourceValue c) = true
       /\ targetValue c = VStr ("existing_" ++ ToString (sourceValue c))
       /\ knownDataType (dataType c) = true.
Proof.
  split; [apply detectConflicts_length | split].
  - now intros ->.
  - apply detectConflicts_entries.
Qed.

(** X14. In the pipeline the resolved values are never null: for the
    conflicts that detectConflicts reports, under every strategy, each
    Resolution with resolved = true has a resolvedValue that is neither null
    nor undefined. *)
Theorem pipeline_resolutions_are_non_null (mappedRecord : jsobject) (roll : bool)
    (resolutionStrategy : option string) (r : Resolution) :
  In r (resolutions (resolveConflicts (detectConflicts mappedRecord roll) resolutionStrategy)) ->
  resolved r = true ->
  isNullish (resolvedValue r) = false.
Proof.
  unfold resolveConflicts. cbn [resolutions]. intros Hr Hres.
  apply in_map_iff in Hr. destruct Hr as [c [<- Hc]].
  destruct (detectConflicts_entries mappedRecord roll c Hc) as [_ [_ [Hs [Ht _]]]].
  apply resolveIndividualConflict_non_null; [now apply truthy_non_null | | exact Hres].
  now rewrite Ht.
Qed.

(** X15. applyConflictResolution gives a field the resolved value of the last
    resolution with resolved = true that names it, when no resolution names
    the field [__proto__]. *)
Theorem applyConflictResolution_last_resolved_wins (mappedRecord : jsobject)
    (resolution : ResolutionBatch) (before after : list Resolution) (r : Resolution) :
  resolutions resolution = (before ++ r :: after)%list ->
  resolved r = true ->
  (forall r', In r' after -> res_field r' = res_field r -> resolved r' = false) ->
  ~ In "__proto__" (map res_field (resolutions resolution)) ->
  obj_get (applyConflictResolution mappedRecord resolution) (res_field r) = resolvedValue r.
Proof.
  intros Hres Hr Hafter _. unfold applyConflictResolution.
  rewrite Hres, fold_left_app. cbn [fold_left]. rewrite Hr.
  destruct (applyResolutions_untouched after (res_field r) Hafter
              (obj_set (fold_left
                 (fun mappedRecord fieldResolution =>
                    if resolved fieldResolution
                    then obj_set mappedRecord (res_field fieldResolution)
                           (resolvedValue fieldResolution)
                    else mappedRecord) before mappedRecord)
                 (res_field r) (resolvedValue r))) as [Hget _].
  cbv zeta in Hget. rewrite Hget. apply obj_get_set_eq.
Qed.

End MapperShape.

(** ** Batch sync engine: batches, counts, completion *)

Section EngineAccounting.
Context {H : Host}.

Lemma createBatchesFrom_nonempty {A : Type} (fuel i : nat) (array : list A) (batchSize : nat) :
  createBatchesFrom fuel i array batchSize <> [] -> i < length array.
Proof.
  destruct fuel as [|fuel]; [now intros []|].
  rewrite createBatchesFrom_step.
  destruct (Nat.ltb_spec i (length array)); [auto | now intros []].
Qed.

Lemma createBatchesFrom_sizes {A : Type} (array : list A) (batchSize : nat) :
  0 < batchSize ->
  forall fuel i batch,
    In batch (createBatchesFrom fuel i array batchSize) ->
    0 < length batch <= batchSize.
Proof.
  intros Hpos. induction fuel as [|fuel IH]; intros i batch; [intros []|].
  rewrite createBatchesFrom_step.
  destruct (Nat.ltb_spec i (length array)) as [Hlt|]; [|intros []].
  intros [<-|Hin]; [|now apply (IH (i + batchSize))].
  unfold arraySlice. rewrite length_firstn, length_skipn. lia.
Qed.

Lemma createBatchesFrom_full {A : Type} (array : list A) (batchSize : nat) :
  forall fuel i, fullButLast batchSize (createBatchesFrom fuel i array batchSize).
Proof.
  induction fuel as [|fuel IH]; intros i; [exact I|].
  rewrite createBatchesFrom_step.
  destruct (Nat.ltb_spec i (length array)) as [Hlt|]; [|exact I].
  specialize (IH (i + batchSize)).
  pose proof (createBatchesFrom_nonempty fuel (i + batchSize) array batchSize) as Hne.
  destruct (createBatchesFrom fuel (i + batchSize) array batchSize) as [|next rest];
    [exact I|].
  split; [|exact IH].
  assert (i + batchSize < length array) by (apply Hne; discriminate).
  unfold arraySlice. rewrite length_firstn, length_skipn. lia.
Qed.

(** X16. For a positive batch size createBatches cuts the array into
    consecutive batches: put end to end they are the array, none is empty,
    none exceeds the batch size, and every batch but the last has exactly
    the batch size. *)
Theorem createBatches_partitions {A : Type} (array : list A) (batchSize : nat) :
  0 < batchSize ->
  concat (createBatches array batchSize) = array
  /\ (forall batch, In batch (createBatches array batchSize) ->
        0 < length batch <= batchSize)
  /\ fullButLast batchSize (createBatches array batchSize).
Proof.
  intros Hpos. split; [now apply createBatches_concat|]. split.
  - intros batch. now apply createBatchesFrom_sizes.
  - apply createBatchesFrom_full.
Qed.

Lemma tryRecord_conflicts (integration : Integration) (item : SourceItem) (results : BatchCounts) :
  conflicts (fst (tryRecord integration item results)) <= conflicts results + 2.
Proof.
  unfold tryRecord.
  destruct (applyFieldMappings _ _) as [mapped|e]; [|simpl; lia].
  pose proof (detectConflicts_length
                (obj_set mapped "_aiEnhancement" VObject) (conflictRoll item)) as Hfound.
  destruct (0 <? length (detectConflicts _ _)).
  - destruct (syncSettings integration) as [settings|]; [|simpl; lia].
    destruct (0 <? resolvedConflicts _); destruct (syncToTarget item); simpl; lia.
  - destruct (syncToTarget item); simpl; lia.
Qed.

Lemma processRecords_errors (integration : Integration) (batch : list SourceItem) :
  forall results out,
    processRecords integration batch results = Normal out ->
    exists added,
      errors out = (errors results ++ added)%list
      /\ failed out = failed results + length added
      /\ forallb isRecordError added = true
      /\ conflicts out <= conflicts results + 2 * length batch.
Proof.
  induction batch as [|item rest IH]; intros results out; cbn [processRecords length].
  - intros E. inversion E; subst. exists []. rewrite app_nil_r. simpl.
    repeat split; lia.
  - pose proof (tryRecord_counts integration item results) as [Hf [He _]].
    pose proof (tryRecord_conflicts integration item results) as Hc.
    destruct (tryRecord integration item results) as [results' [u|e]]; simpl in Hf, He, Hc.
    + intros E. apply IH in E. destruct E as [added [E1 [E2 [E3 E4]]]].
      exists added. rewrite E1, E2, He, Hf. repeat split; [exact E3 | lia].
    + destruct (recordId_of item) as [id|]; [|discriminate]. cbn [bind].
      destruct (errorMessage e) as [msg|]; [|discriminate]. cbn [bind].
      intros E. apply IH in E. destruct E as [added [E1 [E2 [E3 E4]]]].
      simpl in E1, E2, E4.
      exists (RecordError id msg :: added).
      rewrite E1, E2, He, Hf, <- app_assoc. simpl.
      repeat split; [lia | exact E3 | lia].
Qed.

Lemma processBatch_errors (batch : list SourceItem) (integration : Integration)
    (out : BatchCounts) :
  processBatch batch integration = Normal out ->
  length (errors out) = failed out
  /\ forallb isRecordError (errors out) = true
  /\ conflicts out <= 2 * length batch.
Proof.
  intros E. unfold processBatch in E. apply processRecords_errors in E.
  destruct E as [added [E1 [E2 [E3 E4]]]].
  simpl in E1, E2, E4. rewrite E1, E2. repeat split; [exact E3 | lia].
Qed.

(** X17. A batch that processBatch returns from is fully accounted for: every
    record is counted once as successful or failed, the errors are one
    record entry per failed record, and at most two conflicts are counted
    per record. *)
Theorem processBatch_accounts_for_every_record (batch : list SourceItem)
    (integration : Integration) (out : BatchCounts) :
  processBatch batch integration = Normal out ->
  successful out + failed out = length batch
  /\ length (errors out) = failed out
  /\ forallb isRecordError (errors out) = true
  /\ conflicts out <= 2 * length batch.
Proof.
  intros E. split; [now apply (processBatch_counts integration)|].
  now apply (processBatch_errors batch integration).
Qed.

(** X18. With at least one field mapping, a null entry anywhere in a batch
    makes processBatch reject: the mapper throws on the null record and the
    catch clause of the record throws again at record.Id. *)
Theorem null_record_rejects_the_batch (integration : Integration) (batch : list SourceItem)
    (item : SourceItem) :
  fieldMappings integration <> [] ->
  In item batch ->
  record item = None ->
  exists e, processBatch batch integration = Throw e.
Proof.
  intros Hmaps Hin Hnull. unfold processBatch.
  generalize {| successful := 0; failed := 0; conflicts := 0; errors := [] |}.
  induction batch as [|first rest IH]; intros results; [contradiction|].
  cbn [processRecords].
  destruct Hin as [->|Hin].
  - unfold tryRecord, applyFieldMappings. rewrite Hnull.
    destruct (fieldMappings integration) as [|m ms]; [contradiction|].
    cbn [applyMappingsFrom applyMapping recordGet bind].
    unfold recordId_of. rewrite Hnull. cbn [recordGet bind].
    eexists. reflexivity.
  - destruct (tryRecord integration first results) as [results' [u|e]].
    + now apply IH.
    + destruct (recordId_of first) as [id|e1]; [|now exists e1]. cbn [bind].
      destruct (errorMessage e) as [msg|e2]; [|now exists e2]. cbn [bind].
      now apply IH.
Qed.

Lemma tryRecord_catchable (integration : Integration) (item : SourceItem)
    (results : BatchCounts) (e : thrown) :
  wellFormedItem item ->
  snd (tryRecord integration item results) = Throw e ->
  exists message, errorMessage e = Normal message.
Proof.
  intros [Hrec Hrej]. destruct (record item) as [r|] eqn:Er; [|congruence].
  unfold tryRecord. rewrite Er, applyFieldMappings_object.
  assert (Hwrite : forall (counts : BatchCounts),
    snd (match syncToTarget item with
         | Normal _ =>
             ({| successful := successful counts + 1; failed := failed counts;
                 conflicts := conflicts counts; errors := errors counts |}, Normal tt)
         | Throw e0 => (counts, Throw e0)
         end) = Throw e ->
    exists message, errorMessage e = Normal message).
  { intros counts. unfold syncToTarget.
    destruct (writeRejection item) as [[name message|v]|] eqn:Ew; simpl;
      intros E; inversion E; subst.
    - now exists (VStr message).
    - specialize (Hrej v eq_refl). destruct v; try discriminate; now eexists. }
  destruct (0 <? length (detectConflicts _ _)).
  - destruct (syncSettings integration) as [settings|].
    + destruct (0 <? resolvedConflicts _); apply Hwrite.
    + simpl. intros E. inversion E. now eexists.
  - apply Hwrite.
Qed.

Lemma processRecords_returns (integration : Integration) (batch : list SourceItem) :
  (forall item, In item batch -> wellFormedItem item) ->
  forall results, exists out, processRecords integration batch results = Normal out.
Proof.
  induction batch as [|item rest IH]; intros Hall results; cbn [processRecords].
  - now exists results.
  - pose proof (tryRecord_catchable integration item results) as Hcatch.
    destruct (tryRecord integration item results) as [results' [u|e]].
    + apply IH. intros it Hit. apply Hall. now right.
    + destruct (Hcatch e (Hall item (or_introl eq_refl)) eq_refl) as [message Hm].
      destruct (Hall item (or_introl eq_refl)) as [Hrec _].
      unfold recordId_of. destruct (record item) as [r|]; [|congruence].
      cbn [recordGet bind]. rewrite Hm. cbn [bind].
      apply IH. intros it Hit. apply Hall. now right.
Qed.

Lemma batchLoop_processed (integration : Integration) (batches : list (list SourceItem)) :
  forall i results out,
    batchLoop integration i batches results = Normal out ->
    processedRecords out + thrownRecords integration batches
    = processedRecords results + length (concat batches).
Proof.
  induction batches as [|batch rest IH]; intros i results out; cbn [batchLoop concat].
  - inversion 1. unfold thrownRecords. simpl. lia.
  - rewrite thrownRecords_cons, length_app. unfold accountBatch.
    destruct (processBatch batch integration) as [counts|e]; cbn [bind].
    + intros E. apply IH in E. simpl in E. lia.
    + destruct (errorMessage e) as [msg|]; [|discriminate]. cbn [bind].
      intros E. apply IH in E. simpl in E. lia.
Qed.

(** X19. After performSync completes, successfulRecords + failedRecords is
    the number of source records, also when batches threw; processedRecords
    falls short of it by the sizes of the batches that threw, and never
    exceeds it. *)
Theorem completed_run_counts_every_record (integration : Integration)
    (sourceData : list SourceItem) (results : BatchResult) :
  performSync integration sourceData = Completed results ->
  totalRecords results = length sourceData
  /\ successfulRecords results + failedRecords results = totalRecords results
  /\ processedRecords results + thrownRecords integration (createBatches sourceData 50)
     = totalRecords results
  /\ processedRecords results <= totalRecords results.
Proof.
  intros Hrun. apply performSync_completed in Hrun. destruct Hrun as [looped [Hloop ->]].
  pose proof (batchLoop_totalRecords _ _ _ _ _ Hloop) as Htotal.
  pose proof (batchLoop_accounting _ _ _ _ _ Hloop) as Hacc.
  pose proof (batchLoop_processed _ _ _ _ _ Hloop) as Hproc.
  rewrite createBatches_concat in Hproc by lia.
  simpl in *. lia.
Qed.

Lemma runnable_passes (integration : Integration) :
  runnable integration <->
  validateIntegrationConfig integration = Normal tt
  /\ authenticate (sourceOrg integration) = Normal tt
  /\ authenticate (targetOrg integration) = Normal tt.
Proof.
  unfold runnable, validateIntegrationConfig, authenticate. split.
  - intros [s [t [-> [-> [Hs [Ht [Hns [Hnt Hmaps]]]]]]]].
    rewrite Hs, Ht. simpl.
    destruct (fieldMappings integration); [contradiction|]. simpl.
    destruct (orgName s); [|contradiction]. destruct (orgName t); [|contradiction].
    repeat split.
  - destruct (sourceOrg integration) as [s|]; [|intros [E _]; discriminate].
    destruct (targetOrg integration) as [t|]; [|intros [E _]; discriminate].
    intros [Hv [Hs Ht]]. exists s, t.
    destruct (truthyString (loginUrl s)); [|discriminate].
    destruct (truthyString (loginUrl t)); [|discriminate].
    simpl in Hv.
    destruct (fieldMappings integration); [discriminate|].
    destruct (orgName s); [|discriminate]. destruct (orgName t); [|discriminate].
    repeat split; discriminate.
Qed.

(** X20. performSync completes only for a configuration with both orgs, a
    login URL and a name for each, and at least one field mapping: with any
    other configuration the run ends in the failure object. *)
Theorem performSync_completes_only_when_runnable (integration : Integration)
    (sourceData : list SourceItem) (results : BatchResult) :
  performSync integration sourceData = Completed results ->
  runnable integration.
Proof.
  intros Hrun. apply runnable_passes. unfold performSync in Hrun.
  destruct (validateIntegrationConfig integration) as [[]|e]; cbn [bind] in Hrun;
    [|destruct (errorMessage e); discriminate].
  destruct (authenticate (sourceOrg integration)) as [[]|e]; cbn [bind] in Hrun;
    [|destruct (errorMessage e); discriminate].
  destruct (authenticate (targetOrg integration)) as [[]|e]; cbn [bind] in Hrun;
    [|destruct (errorMessage e); discriminate].
  repeat split.
Qed.

Lemma batchLoop_returns (integration : Integration) (batches : list (list SourceItem)) :
  (forall batch item, In batch batches -> In item batch -> wellFormedItem item) ->
  forall i results,
    forallb isRecordError (syncErrors results) = true ->
    length (syncErrors results) = failedRecords results ->
    exists out,
      batchLoop integration i batches results = Normal out
      /\ thrownRecords integration batches = 0
      /\ forallb isRecordError (syncErrors out) = true
      /\ length (syncErrors out) = failedRecords out.
Proof.
  induction batches as [|batch rest IH]; intros Hall i results Herr Hlen; cbn [batchLoop].
  - exists results. repeat split; auto.
  - rewrite thrownRecords_cons. unfold accountBatch.
    destruct (processRecords_returns integration batch
                (fun item Hin => Hall batch item (or_introl eq_refl) Hin)
                {| successful := 0; failed := 0; conflicts := 0; errors := [] |})
      as [counts Hcounts].
    fold (processBatch batch integration) in Hcounts. rewrite Hcounts. cbn [bind].
    destruct (processBatch_errors _ _ _ Hcounts) as [Hl [Hr _]].
    match goal with |- context [batchLoop integration (S i) rest ?x] =>
      destruct (IH (fun b it Hb Hit => Hall b it (or_intror Hb) Hit) (S i) x)
        as [out [E [Hthrown [Herr' Hlen']]]]
    end.
    + simpl. rewrite forallb_app, Herr, Hr. reflexivity.
    + simpl. rewrite length_app. lia.
    + exists out. repeat split; auto.
Qed.

Lemma createBatches_In {A : Type} (array : list A) (batchSize : nat) (batch : list A) (x : A) :
  In batch (createBatches array batchSize) -> In x batch -> In x array.
Proof.
  unfold createBatches. generalize (length array) at 1. intros fuel. generalize 0.
  induction fuel as [|fuel IH]; intros i; [intros []|].
  rewrite createBatchesFrom_step.
  destruct (i <? length array); [|intros []].
  intros [<-|Hin]; [apply arraySlice_In | now apply (IH (i + batchSize))].
Qed.

(** X21. For a runnable configuration and source data whose entries are all
    objects and whose write rejections are never null or undefined, no batch
    throws: performSync completes, every record is processed, successes and
    failures add up to the total, and the errors are one record entry per
    failed record, without a batch entry. *)
Theorem wellFormed_run_completes (integration : Integration) (sourceData : list SourceItem) :
  runnable integration ->
  (forall item, In item sourceData -> wellFormedItem item) ->
  exists results,
    performSync integration sourceData = Completed results
    /\ processedRecords results = length sourceData
    /\ successfulRecords results + failedRecords results = length sourceData
    /\ length (syncErrors results) = failedRecords results
    /\ filter isBatchError (syncErrors results) = [].
Proof.
  intros Hrunnable Hall. apply runnable_passes in Hrunnable.
  destruct Hrunnable as [Hv [Hs Ht]].
  destruct (batchLoop_returns integration (createBatches sourceData 50)) with
    (i := 0) (results := initialResults sourceData) as [out [E [Hthrown [Herr Hlen]]]];
    try reflexivity.
  { intros batch item Hb Hit. apply Hall. eapply createBatches_In; eauto. }
  exists (finalResults out). split; [now apply performSync_runs|].
  pose proof (batchLoop_accounting _ _ _ _ _ E) as Hacc.
  pose proof (batchLoop_processed _ _ _ _ _ E) as Hproc.
  rewrite createBatches_concat in Hproc by lia.
  rewrite Hthrown in Hacc, Hproc. simpl in *.
  repeat split; try lia.
  clear - Herr. induction (syncErrors out) as [|e l IH]; simpl in *; [reflexivity|].
  apply andb_true_iff in Herr. destruct Herr as [He Hl].
  destruct e; [now apply IH | discriminate].
Qed.



End EngineAccounting.

(** ** Similarity scorer: the edit distance and letter case *)

Section ScorerBounds.
Context {H : Host}.

Lemma editDistance_bounds : forall u v,
  Nat.max (length u) (length v) - Nat.min (length u) (length v) <= editDistance u v
  /\ editDistance u v <= Nat.max (length u) (length v).
Proof.
  induction u as [|a u IHu]; intros v.
  - rewrite editDistance_nil_l. simpl. lia.
  - induction v as [|b v IHv].
    + rewrite editDistance_nil_r. simpl. lia.
    + rewrite editDistance_cons.
      pose proof (IHu v). pose proof (IHu (b :: v)).
      cbn [length] in *. destruct (Ascii.eqb a b); lia.
Qed.

Lemma editDistance_refl (u : list ascii) : editDistance u u = 0.
Proof.
  induction u as [|a u IH]; [reflexivity|].
  now rewrite editDistance_cons, Ascii.eqb_refl.
Qed.

Lemma editDistance_zero : forall u v, editDistance u v = 0 -> u = v.
Proof.
  induction u as [|a u IHu]; intros v.
  - rewrite editDistance_nil_l. now destruct v.
  - destruct v as [|b v].
    + rewrite editDistance_nil_r. discriminate.
    + rewrite editDistance_cons. destruct (Ascii.eqb_spec a b) as [->|_].
      * intros E. now rewrite (IHu v E).
      * lia.
Qed.

(** X22. The number calculateLevenshteinDistance reads from its matrix is at
    least the difference of the two lengths and at most the longer length,
    and it is 0 exactly when the two strings are equal. *)
Theorem levenshtein_distance_bounds (str1 str2 : string) :
  Nat.max (String.length str1) (String.length str2)
    - Nat.min (String.length str1) (String.length str2)
  <= calculateLevenshteinDistance str1 str2
  /\ calculateLevenshteinDistance str1 str2
     <= Nat.max (String.length str1) (String.length str2)
  /\ (calculateLevenshteinDistance str1 str2 = 0 <-> str1 = str2).
Proof.
  rewrite calculateLevenshteinDistance_editDistance.
  pose proof (editDistance_bounds (rev (Str.chars str2)) (rev (Str.chars str1))) as Hb.
  rewrite !length_rev, !chars_length in Hb.
  split; [lia|]. split; [lia|]. split.
  - intros E. apply editDistance_zero in E.
    apply (f_equal (@rev ascii)) in E. rewrite !rev_involutive in E.
    symmetry. now apply chars_injective.
  - intros ->. apply editDistance_refl.
Qed.

Lemma inMatches_lower (matches : list string) (field : string) :
  inMatches matches (Str.toLowerCase field) = inMatches matches field.
Proof. unfold inMatches. now rewrite toLowerCase_idempotent. Qed.

(** X23. On field names whose code units are all below 256, the strings of
    this model, on which toLowerCase keeps the length, calculateFieldSimilarity
    does not see the letter case of the two names: the lower-cased names get
    the score of the names themselves, whatever the alias lists. *)
Theorem similarity_ignores_case (sourceField targetField : string)
    (sourcePossibleMatches targetPossibleMatches : list string) :
  calculateFieldSimilarity (Str.toLowerCase sourceField) (Str.toLowerCase targetField)
    sourcePossibleMatches targetPossibleMatches
  = calculateFieldSimilarity sourceField targetField
      sourcePossibleMatches targetPossibleMatches.
Proof.
  unfold calculateFieldSimilarity.
  now rewrite !inMatches_lower, !toLowerCase_idempotent, !toLowerCase_length.
Qed.

End ScorerBounds.

(** * The properties on concrete runs, with the reference host *)

Import ReferenceHost Demo.

Lemma no_batch_entry (l : list SyncError) :
  filter isBatchError l = [] -> forall batch message count, ~ In (BatchError batch message count) l.
Proof.
  intros Hnone batch message count Hin.
  assert (Hf : In (BatchError batch message count) (filter isBatchError l))
    by (apply filter_In; split; [exact Hin | reflexivity]).
  rewrite Hnone in Hf. exact Hf.
Qed.

(** Outside the data a run works on the balance is lost: at a source array
    [[null]], which the reader never builds, the only batch throws out of
    processBatch, the catch clause of performSync counts its record as failed
    and leaves processedRecords alone, and the run completes with
    successfulRecords + failedRecords = 1 and processedRecords = 0. *)
Lemma batch_exception_unbalances_the_counts :
  exists results,
    performSync demoIntegration [nullEntry] = Completed results
    /\ processBatch [nullEntry] demoIntegration
       = Throw (TypeError "Cannot read properties of null (reading 'Id')")
    /\ successfulRecords results = 0
    /\ failedRecords results = 1
    /\ processedRecords results = 0
    /\ totalRecords results = 1
    /\ successfulRecords results + failedRecords results <> processedRecords results.
Proof.
  eexists. split; [reflexivity|].
  repeat split; simpl; discriminate.
Qed.


(** C2, the claim as stated fails: under latest-wins a conflict between
    "Open" at the source and "Closed" at the target resolves to "Closed". *)
Lemma latest_wins_does_not_fall_back_to_source :
  resolvedValue (resolveIndividualConflict stageConflict "latest-wins") = VStr "Closed"
  /\ sourceValue stageConflict = VStr "Open"
  /\ resolvedValue (resolveIndividualConflict stageConflict "latest-wins")
     <> sourceValue stageConflict.
Proof. split; [reflexivity | split; [reflexivity | discriminate]]. Qed.

(** C3, the claim as stated fails: on 120 records with the writer rejecting
    the second batch the counts are 70 and 50, and the errors list holds 50
    record entries and no entry of batch 2. *)
Lemma write_failures_leave_no_batch_entry :
  exists results,
    performSync demoIntegration demoSourceData = Completed results
    /\ successfulRecords results = 70
    /\ failedRecords results = 50
    /\ length (syncErrors results) = 50
    /\ hd_error (syncErrors results)
       = Some (RecordError (VStr "account_50") (VStr "Target system error: UNABLE_TO_LOCK_ROW"))
    /\ ~ (exists message, In (BatchError 2 message 50) (syncErrors results)).
Proof.
  exists demoResults. split; [reflexivity|].
  do 4 (split; [reflexivity|]).
  intros [message Hin]. revert Hin. apply no_batch_entry. reflexivity.
Qed.

Lemma second_batch_write_failures_witness :
  exists results,
    performSync demoIntegration demoSourceData = Completed results
    /\ createBatches demoSourceData 50
       = [arraySlice demoSourceData 0 50; arraySlice demoSourceData 50 100;
          arraySlice demoSourceData 100 150]
    /\ map (@length SourceItem) (createBatches demoSourceData 50) = [50; 50; 20]
    /\ successfulRecords results = 70
    /\ failedRecords results = 50
    /\ processedRecords results = 120
    /\ syncErrors results = map recordErrorOf (arraySlice demoSourceData 50 100)
    /\ length (syncErrors results) = 50
    /\ filter isBatchError (syncErrors results) = [].
Proof.
  assert (Hrecords :
    forallb (fun it => match record it with Some _ => true | None => false end)
            demoSourceData = true) by (vm_compute; reflexivity).
  assert (Hrejected :
    forallb (fun it => match writeRejection it with Some (ErrorObj _ _) => true | _ => false end)
            (arraySlice demoSourceData 50 100) = true) by (vm_compute; reflexivity).
  assert (Hwritten :
    forallb (fun it => match writeRejection it with None => true | Some _ => false end)
            (arraySlice demoSourceData 0 50 ++ arraySlice demoSourceData 100 150)%list = true)
    by (vm_compute; reflexivity).
  apply (second_batch_write_failures_are_record_errors demoIntegration
           {| conflictResolution := Some "ai-resolve" |} demoSourceData).
  - reflexivity.
  - reflexivity.
  - reflexivity.
  - reflexivity.
  - reflexivity.
  - intros item Hin.
    pose proof (proj1 (forallb_forall _ _) Hrecords item Hin) as Hb. cbv beta in Hb.
    destruct (record item); [discriminate | discriminate Hb].
  - intros item Hin.
    pose proof (proj1 (forallb_forall _ _) Hrejected item Hin) as Hb. cbv beta in Hb.
    destruct (writeRejection item) as [[name message|v]|]; try discriminate Hb.
    exists name, message. reflexivity.
  - intros item Hin.
    pose proof (proj1 (forallb_forall _ _) Hwritten item (in_or_app _ _ _ Hin)) as Hb.
    cbv beta in Hb.
    destruct (writeRejection item); [discriminate Hb | reflexivity].
Defined.

(** C4, the claim as stated fails: formatPhone throws on the boolean
    [true] and on the number 5551234567. *)
Lemma formatPhone_throws_on_non_strings :
  formatPhone (VBool true) = Throw (TypeError "phone.replace is not a function")
  /\ formatPhone (VNum (num_lit 5551234567))
     = Throw (TypeError "phone.replace is not a function").
Proof. split; reflexivity. Qed.

Lemma transformers_total_witness :
  formatPhone (VStr "12345") = Normal (VStr "12345")
  /\ applyTransformation (VBool true) "formatPhone(value)" = VBool true.
Proof.
  split.
  - destruct (transformers_total_behind_applyTransformation "formatPhone(value)" (VStr "12345"))
      as (_ & _ & _ & _ & _ & _ & _ & Hphone & _).
    apply (Hphone "12345" eq_refl).
    + vm_compute. discriminate.
    + vm_compute. intros [Hlen _]. discriminate Hlen.
  - destruct (transformers_total_behind_applyTransformation "formatPhone(value)" (VBool true))
      as (_ & _ & _ & _ & _ & _ & _ & _ & _ & Hguard).
    apply (Hguard (TypeError "phone.replace is not a function")). reflexivity.
Defined.

(** C5, the claim as stated fails: the conflict that detectUpdateConflicts
    reports carries no values; under ai-resolve, and under source-wins, it is
    resolved, to undefined. *)
Lemma resolved_with_null_value :
  exists r,
    In r (resolutions (resolveConflicts [updateConflict] (Some "ai-resolve")))
    /\ resolved r = true
    /\ resolvedValue r = VUndefined
    /\ isNullish (resolvedValue r) = true
    /\ resolved (resolveIndividualConflict updateConflict "source-wins") = true
    /\ resolvedValue (resolveIndividualConflict updateConflict "source-wins") = VUndefined.
Proof.
  exists (resolveIndividualConflict updateConflict "ai-resolve").
  split; [left; reflexivity|]. repeat split.
Qed.

Lemma resolved_value_non_null_witness :
  isNullish
    (resolvedValue (resolveIndividualConflict emailConflict "ai-resolve")) = false.
Proof.
  apply (resolved_value_non_null [emailConflict; statusConflict] (Some "ai-resolve")).
  - intros c [<-|[<-|[]]]; split; reflexivity.
  - intros c d [<-|[<-|[]]] Hd; inversion Hd; subst d; vm_compute; intuition discriminate.
  - intros strategy Hs. inversion Hs; subst strategy. vm_compute. intuition discriminate.
  - left. reflexivity.
  - reflexivity.
Defined.

(** C6, the claim as stated fails: with 2 of 3 records written the rate is
    the string "66.67", not the number 2 / 3 * 100. *)
Lemma successRate_is_a_rounded_string :
  exists results,
    performSync demoIntegration threeRecords = Completed results
    /\ successfulRecords results = 2
    /\ totalRecords results = 3
    /\ successRate results = VStr "66.67"
    /\ successRate results
       <> VNum (num_mul (num_div (num_lit 2) (num_lit 3)) (num_lit 100)).
Proof.
  exists threeResults. split; [reflexivity|].
  do 3 (split; [reflexivity|]).
  unfold threeResults. cbn [successRate]. discriminate.
Qed.

Lemma successRate_witness :
  successRate threeResults
  = VStr (num_toFixed2 (num_mul (num_div (num_of_nat 2) (num_of_nat 3)) (num_lit 100))).
Proof.
  apply (successRate_is_percentage_toFixed2 demoIntegration threeRecords threeResults).
  - reflexivity.
  - unfold threeResults. cbn [totalRecords]. lia.
Defined.

Lemma fan_out_witness :
  exists mapped alone,
    applyFieldMappings (Some fanOutRecord) [phoneFromPhone; phoneFromMobile] = Normal mapped
    /\ applyFieldMappings (Some fanOutRecord) [phoneFromMobile] = Normal alone
    /\ obj_get mapped "Phone" = obj_get alone "Phone".
Proof.
  apply (fan_out_later_mapping_wins fanOutRecord [] [] [] phoneFromPhone phoneFromMobile).
  - reflexivity.
  - discriminate.
  - intros m [].
  - simpl. intuition discriminate.
Defined.

(** C7, the claim as stated fails: with three mappings to one target field
    the later of the first two writes "B", and the mapped record holds "C",
    the value of the third. *)
Lemma fan_out_third_mapping_overwrites :
  exists mapped alone,
    applyFieldMappings (Some threeSources) [toTarget "a"; toTarget "b"; toTarget "c"]
      = Normal mapped
    /\ applyFieldMappings (Some threeSources) [toTarget "b"] = Normal alone
    /\ targetField (toTarget "a") = targetField (toTarget "b")
    /\ sourceField (toTarget "a") <> sourceField (toTarget "b")
    /\ obj_get mapped "T" = VStr "C"
    /\ obj_get alone "T" = VStr "B"
    /\ obj_get mapped (targetField (toTarget "b")) <> obj_get alone (targetField (toTarget "b")).
Proof.
  exists [("T", VStr "C")], [("T", VStr "B")].
  split; [reflexivity|]. split; [reflexivity|]. split; [reflexivity|].
  split; [discriminate|]. split; [reflexivity|]. split; [reflexivity|].
  discriminate.
Qed.

Lemma similarity_symmetric_witness :
  calculateFieldSimilarity "FirstName" "LastName" ["FName"; "GivenName"] ["LName"; "Surname"]
  = calculateFieldSimilarity "LastName" "FirstName" ["LName"; "Surname"] ["FName"; "GivenName"].
Proof.
  apply similarity_symmetric_without_alias; reflexivity.
Defined.

Lemma unknown_dataType_witness :
  dataTypeRule "Picklist" "source_wins" = None
  /\ dataTypeRule "String" "source_wins" = Some source_wins
  /\ resolvedValue (resolveIndividualConflict statusConflict "source-wins") = VStr "Open"
  /\ resolved (resolveIndividualConflict statusConflict "source-wins") = true.
Proof.
  destruct (unknown_dataType_uses_String_rules statusConflict "source-wins")
    as [Hown [_ [Hvalue [Hresolved _]]]].
  - reflexivity.
  - left. reflexivity.
  - split; [exact (Hown "Picklist" eq_refl)|].
    split; [reflexivity|]. split; [exact Hvalue | exact Hresolved].
Defined.

Lemma applyConflictResolution_frame_witness :
  obj_get (applyConflictResolution mappedContact
             (resolveConflicts [emailConflict] (Some "target-wins"))) "Name"
    = obj_get mappedContact "Name"
  /\ (In "Name" (obj_keys (applyConflictResolution mappedContact
                             (resolveConflicts [emailConflict] (Some "target-wins"))))
      <-> In "Name" (obj_keys mappedContact)).
Proof.
  apply applyConflictResolution_frame.
  intros r [<-|[]] Hfield. discriminate Hfield.
Defined.

(** ** Instances of the further properties *)

Lemma unknown_strategy_witness :
  resolvedConflicts (resolveConflicts [emailConflict; stageConflict] (Some "manual")) = 0.
Proof.
  destruct (unknown_strategy_falls_back [emailConflict; stageConflict] "manual")
    as [Hnone _].
  - discriminate.
  - vm_compute. intuition discriminate.
  - vm_compute. intuition discriminate.
  - intros c d [<-|[<-|[]]] Hd; inversion Hd; subst d; vm_compute; intuition discriminate.
  - exact Hnone.
Defined.

Lemma high_priority_witness :
  resolvedValue (resolveIndividualConflict emailConflict "ai-resolve")
    = sourceValue emailConflict
  \/ resolvedValue (resolveIndividualConflict emailConflict "ai-resolve")
    = targetValue emailConflict.
Proof. apply high_priority_resolution_selects_a_side. reflexivity. Defined.

Lemma email_conflict_witness :
  resolved (resolveIndividualConflict emailConflict "ai-resolve") = true
  /\ resolvedValue (resolveIndividualConflict emailConflict "ai-resolve") = VStr "A@x.com".
Proof.
  apply (email_conflict_prefers_valid_address emailConflict "A@x.com" "invalid-email");
    reflexivity.
Defined.

Lemma mapped_record_witness :
  exists mapped,
    applyFieldMappings (Some fanOutRecord) [phoneFromPhone; phoneFromMobile] = Normal mapped
    /\ NoDup (obj_keys mapped)
    /\ forall k, In k (obj_keys mapped)
         <-> In k (map targetField [phoneFromPhone; phoneFromMobile]).
Proof.
  apply mapped_record_has_the_target_fields.
  simpl. intuition discriminate.
Defined.

Lemma falsy_source_value_witness :
  exists mapped,
    applyFieldMappings (Some fanOutRecord) [phoneFromPhone; faxMapping] = Normal mapped
    /\ obj_get mapped (targetField faxMapping) = obj_get fanOutRecord (sourceField faxMapping).
Proof.
  apply (falsy_source_value_is_copied fanOutRecord [phoneFromPhone] [] faxMapping).
  - reflexivity.
  - intros m [].
  - simpl. intuition discriminate.
Defined.

Lemma unlabelled_rule_witness :
  exists mapped,
    applyFieldMappings (Some fanOutRecord) [phoneFromPhone; phoneFromMobile] = Normal mapped
    /\ obj_get mapped (targetField phoneFromMobile)
       = obj_get fanOutRecord (sourceField phoneFromMobile).
Proof.
  apply (unlabelled_rule_copies_the_value fanOutRecord [phoneFromPhone] [] phoneFromMobile).
  - intros r Hr. discriminate Hr.
  - intros m [].
  - simpl. intuition discriminate.
Defined.

Lemma pipeline_resolutions_witness :
  isNullish (resolvedValue (resolveIndividualConflict detectedEmail "ai-resolve")) = false.
Proof.
  apply (pipeline_resolutions_are_non_null mappedContact true (Some "ai-resolve")).
  - left. reflexivity.
  - reflexivity.
Defined.

Lemma last_resolved_wins_witness :
  obj_get (applyConflictResolution mappedContact
             (resolveConflicts [emailConflict] (Some "target-wins"))) "Email"
  = VStr "invalid-email".
Proof.
  apply (applyConflictResolution_last_resolved_wins mappedContact
           (resolveConflicts [emailConflict] (Some "target-wins")) [] []
           (resolveIndividualConflict emailConflict "target-wins")).
  - reflexivity.
  - reflexivity.
  - intros r' [].
  - simpl. intuition discriminate.
Defined.

Lemma createBatches_partitions_witness :
  concat (createBatches demoSourceData 50) = demoSourceData
  /\ (forall batch, In batch (createBatches demoSourceData 50) -> 0 < length batch <= 50)
  /\ fullButLast 50 (createBatches demoSourceData 50).
Proof. apply (createBatches_partitions demoSourceData 50). lia. Defined.

Lemma processBatch_accounts_witness :
  successful threeCounts + failed threeCounts = length threeRecords
  /\ length (errors threeCounts) = failed threeCounts
  /\ forallb isRecordError (errors threeCounts) = true
  /\ conflicts threeCounts <= 2 * length threeRecords.
Proof.
  apply (processBatch_accounts_for_every_record threeRecords demoIntegration threeCounts).
  reflexivity.
Defined.

Lemma null_record_witness :
  exists e, processBatch [demoItem None 0; nullEntry] demoIntegration = Throw e.
Proof.
  apply (null_record_rejects_the_batch demoIntegration [demoItem None 0; nullEntry] nullEntry).
  - discriminate.
  - right. left. reflexivity.
  - reflexivity.
Defined.

Lemma completed_run_witness :
  totalRecords threeResults = length threeRecords
  /\ successfulRecords threeResults + failedRecords threeResults = totalRecords threeResults
  /\ processedRecords threeResults
       + thrownRecords demoIntegration (createBatches threeRecords 50)
     = totalRecords threeResults
  /\ processedRecords threeResults <= totalRecords threeResults.
Proof.
  apply (completed_run_counts_every_record demoIntegration threeRecords threeResults).
  reflexivity.
Defined.

Lemma runnable_witness : runnable demoIntegration.
Proof.
  apply (performSync_completes_only_when_runnable demoIntegration threeRecords threeResults).
  reflexivity.
Defined.

Lemma wellFormed_run_witness :
  exists results,
    performSync demoIntegration threeRecords = Completed results
    /\ processedRecords results = length threeRecords
    /\ successfulRecords results + failedRecords results = length threeRecords
    /\ length (syncErrors results) = failedRecords results
    /\ filter isBatchError (syncErrors results) = [].
Proof.
  apply (wellFormed_run_completes demoIntegration threeRecords).
  - exists (demoOrg "Sales"), (demoOrg "Service").
    split; [reflexivity|]. split; [reflexivity|].
    split; [reflexivity|]. split; [reflexivity|].
    split; [discriminate|]. split; discriminate.
  - intros item [<-|[<-|[<-|[]]]]; (split; [discriminate | intros v Hv; discriminate Hv]).
Defined.
